(** * Velocity utilities of the video stitcher

    A shallow embedding of [VideoStitcher/rhombus_utils/velocity.py]:
    [get_velocity], [normalize_velocity] and [normalize_position].

    - Numbers are IEEE 754 binary64 values, as Python floats and numpy
      float64 are: [spec_float] of the standard library at precision 53
      and maximal exponent 1024, with round-to-nearest-even arithmetic.
    - numpy arrays are mutable objects: they live in a heap, a finite map
      from references to one-dimensional arrays of Python values, and the
      functions are computations in a state-and-exception monad over it.
    - The default threshold of the two quantizers is the object built once
      when the [def] statement runs, shared by all later calls.
    - [Vec2], [validate_vec2] and [HumanEvent] belong to [rhombus_types],
      which is not among the sources: they follow the specification's data
      model. *)

From Stdlib Require Import ZArith Bool Floats.SpecFloat.
From stdpp Require Import base option list gmap.

(** ** Binary64 arithmetic *)

Module F64.

Definition prec : Z := 53.
Definition emax : Z := 1024.

Abbreviation t := spec_float.

Definition of_Z (z : Z) : t := binary_normalize prec emax z 0 false.

Definition zero : t := Eval vm_compute in of_Z 0.
Definition one : t := Eval vm_compute in of_Z 1.
Definition neg_one : t := Eval vm_compute in of_Z (-1).

Definition opp : t -> t := SFopp.
Definition sub : t -> t -> t := SFsub prec emax.
Definition div : t -> t -> t := SFdiv prec emax.

Definition eqb : t -> t -> bool := SFeqb.
Definition ltb : t -> t -> bool := SFltb.
Definition leb : t -> t -> bool := SFleb.

(** The double nearest to the fraction [n / d], as the literal is read. *)
Definition ratio (n d : Z) : t := div (of_Z n) (of_Z d).

Definition half : t := Eval vm_compute in ratio 1 2.

Definition is_nan (x : t) : bool :=
  match x with S754_nan => true | _ => false end.

(** What Python's [==] cannot tell apart, plus the case where both sides
    are NaN (for which [==] answers [False]). *)
Definition same_number (x y : t) : Prop :=
  (is_nan x = true /\ is_nan y = true) \/ eqb x y = true.

End F64.

(** ** Python values, exceptions and the heap *)

(** An array element: a float, or [None] for an element that is not a
    number (an array of objects). *)
Inductive pyval :=
| PFloat (x : F64.t)
| PNone.

Inductive exn :=
| ValidationError
| IndexError
| TypeError
| ValueError
| Dangling.

Inductive outcome (A : Type) :=
| Returns (a : A)
| Raises (e : exn).
Arguments Returns {A} a.
Arguments Raises {A} e.

Definition loc := positive.
Bind Scope positive_scope with loc.

Abbreviation ndarray := (list pyval).
Abbreviation heap := (gmap loc (list pyval)).

Definition M (A : Type) : Type := heap -> outcome A * heap.

Definition ret {A} (a : A) : M A := fun h => (Returns a, h).

Definition raise {A} (e : exn) : M A := fun h => (Raises e, h).

Definition bind {A B} (m : M A) (k : A -> M B) : M B :=
  fun h =>
    match m h with
    | (Returns a, h') => k a h'
    | (Raises e, h') => (Raises e, h')
    end.

Definition lift {A} (o : outcome A) : M A := fun h => (o, h).

Declare Scope py_scope.
Delimit Scope py_scope with py.
Notation "x <- m ;; k" := (bind m (fun x => k))
  (at level 100, m at next level, right associativity) : py_scope.
Notation "m ;; k" := (bind m (fun _ => k))
  (at level 100, right associativity) : py_scope.
Open Scope py_scope.

(** [np.array([...])]: a new object at a reference not in use. *)
Definition alloc (arr : ndarray) : M loc :=
  fun h => let l := fresh (dom h) in (Returns l, <[l := arr]> h).

(** The contents of the array behind a reference.  Python has no dangling
    references; the model reports one as [Dangling]. *)
Definition deref (l : loc) : M ndarray :=
  fun h =>
    match h !! l with
    | Some arr => (Returns arr, h)
    | None => (Raises Dangling, h)
    end.

(** [a[i]] for a non-negative literal [i]; out of range raises. *)
Definition getitem (l : loc) (i : nat) : M pyval :=
  arr <- deref l ;;
  match arr !! i with
  | Some v => ret v
  | None => raise IndexError
  end.

(** [a[i] = v], in place. *)
Definition setitem (l : loc) (i : nat) (v : pyval) : M unit :=
  arr <- deref l ;;
  if decide (i < length arr)%nat
  then fun h => (Returns tt, <[l := <[i := v]> arr]> h)
  else raise IndexError.

(** Scalar operators; an operand that is not a number raises [TypeError]. *)
Definition py_gt (x y : pyval) : outcome bool :=
  match x, y with
  | PFloat a, PFloat b => Returns (F64.ltb b a)
  | _, _ => Raises TypeError
  end.

Definition py_lt (x y : pyval) : outcome bool :=
  match x, y with
  | PFloat a, PFloat b => Returns (F64.ltb a b)
  | _, _ => Raises TypeError
  end.

Definition py_neg (x : pyval) : outcome pyval :=
  match x with
  | PFloat a => Returns (PFloat (F64.opp a))
  | PNone => Raises TypeError
  end.

Definition py_sub (x y : pyval) : outcome pyval :=
  match x, y with
  | PFloat a, PFloat b => Returns (PFloat (F64.sub a b))
  | _, _ => Raises TypeError
  end.

Definition py_truediv (x y : pyval) : outcome pyval :=
  match x, y with
  | PFloat a, PFloat b => Returns (PFloat (F64.div a b))
  | _, _ => Raises TypeError
  end.

(** Element-wise application, stopping at the first element that raises. *)
Fixpoint map_outcome {A B} (f : A -> outcome B) (l : list A) : outcome (list B) :=
  match l with
  | [] => Returns []
  | x :: l' =>
      match f x with
      | Returns y =>
          match map_outcome f l' with
          | Returns ys => Returns (y :: ys)
          | Raises e => Raises e
          end
      | Raises e => Raises e
      end
  end.

(** Broadcasting of two one-dimensional shapes: equal lengths, or one of
    them of length one, which is repeated. *)
Definition broadcast (x y : ndarray) : outcome (list (pyval * pyval)) :=
  if decide (length x = length y) then Returns (zip x y)
  else match x, y with
       | [v], _ => Returns (zip (replicate (length y) v) y)
       | _, [w] => Returns (zip x (replicate (length x) w))
       | _, _ => Raises ValueError
       end.

(** [np.subtract(x, y)], a new array value. *)
Definition np_subtract (x y : ndarray) : outcome ndarray :=
  match broadcast x y with
  | Returns ps => map_outcome (fun p => py_sub (fst p) (snd p)) ps
  | Raises e => Raises e
  end.

(** [arr / s] for a Python scalar [s]. *)
Definition np_divide_scalar (x : ndarray) (s : F64.t) : outcome ndarray :=
  map_outcome (fun v => py_truediv v (PFloat s)) x.

(** [-arr], element by element. *)
Definition np_negative (x : ndarray) : outcome ndarray := map_outcome py_neg x.

(** [==] on scalars, and [np.array_equal] on arrays. *)
Definition py_eq (x y : pyval) : bool :=
  match x, y with
  | PFloat a, PFloat b => F64.eqb a b
  | PNone, PNone => true
  | _, _ => false
  end.

Definition array_equal (x y : ndarray) : bool :=
  Nat.eqb (length x) (length y) && forallb (fun p => py_eq (fst p) (snd p)) (zip x y).

(** The array a computation returns, read from the heap it leaves. *)
Definition result_of (m : M loc) (h : heap) : outcome ndarray :=
  match m h with
  | (Returns r, h') =>
      match h' !! r with
      | Some arr => Returns arr
      | None => Raises Dangling
      end
  | (Raises e, _) => Raises e
  end.

Definition heap_after {A} (m : M A) (h : heap) : heap := snd (m h).

(** ** [rhombus_types]: vectors and human events *)

(** Modelled from the spec: the constructor [Vec2] of
    [rhombus_types/vector.py] is not part of the sources at hand.  The
    spec's data model: a pair of numeric components (x, y), both floating
    point, built from two scalars. *)
Definition Vec2 (x y : F64.t) : M loc := alloc [PFloat x; PFloat y].

Definition is_number (v : pyval) : bool :=
  match v with PFloat _ => true | PNone => false end.

(** The shape contract of a Vec2: exactly two components, both numbers. *)
Definition is_vec2 (arr : ndarray) : bool :=
  Nat.eqb (length arr) 2 && forallb is_number arr.

(** Modelled from the spec: [validate_vec2] of [rhombus_types/vector.py]
    is not part of the sources at hand.  The spec's shape contract:
    exactly two numeric components, a validation error if not. *)
Definition validate_vec2 (a : loc) : M unit :=
  arr <- deref a ;;
  if is_vec2 arr
  then ret tt
  else raise ValidationError.

(** Modelled from the spec: the class [HumanEvent] of
    [rhombus_types/human_event.py] is not part of the sources at hand.
    The spec's timestamped position: a position vector and a numeric
    timestamp in milliseconds. *)
Record HumanEvent := {
  position : loc;
  timestamp : F64.t
}.

(** ** [rhombus_utils/velocity.py] *)

(** The objects the two [threshold=Vec2(0, 0)] defaults evaluate to when
    the module is loaded. *)
Record module_state := {
  normalize_velocity_default : loc;
  normalize_position_default : loc
}.

Definition load_module : M module_state :=
  d1 <- Vec2 F64.zero F64.zero ;;
  d2 <- Vec2 F64.zero F64.zero ;;
  ret {| normalize_velocity_default := d1; normalize_position_default := d2 |}.

Definition get_velocity (a b : HumanEvent) : M loc :=
  if F64.eqb (F64.sub (timestamp b) (timestamp a)) F64.zero
  then Vec2 F64.zero F64.zero
  else
    pb <- deref (position b) ;;
    pa <- deref (position a) ;;
    d <- lift (np_subtract pb pa) ;;
    v <- lift (np_divide_scalar d (F64.sub (timestamp b) (timestamp a))) ;;
    alloc v.

Definition normalize_velocity (ms : module_state) (a : loc) (threshold : option loc) : M loc :=
  let threshold := from_option id (normalize_velocity_default ms) threshold in
  validate_vec2 a ;;
  validate_vec2 threshold ;;
  normalized_velocity <- Vec2 F64.zero F64.zero ;;
  (a0 <- getitem a 0 ;;
   t0 <- getitem threshold 0 ;;
   gt0 <- lift (py_gt a0 t0) ;;
   if gt0 : bool then setitem normalized_velocity 0 (PFloat F64.one)
   else
     a0 <- getitem a 0 ;;
     t0 <- getitem threshold 0 ;;
     nt0 <- lift (py_neg t0) ;;
     lt0 <- lift (py_lt a0 nt0) ;;
     if lt0 : bool then setitem normalized_velocity 0 (PFloat F64.neg_one)
     else ret tt) ;;
  (a1 <- getitem a 1 ;;
   t1 <- getitem threshold 1 ;;
   gt1 <- lift (py_gt a1 t1) ;;
   if gt1 : bool then setitem normalized_velocity 1 (PFloat F64.one)
   else
     a1 <- getitem a 1 ;;
     t1 <- getitem threshold 1 ;;
     nt1 <- lift (py_neg t1) ;;
     lt1 <- lift (py_lt a1 nt1) ;;
     if lt1 : bool then setitem normalized_velocity 1 (PFloat F64.neg_one)
     else ret tt) ;;
  ret normalized_velocity.

Definition normalize_position (ms : module_state) (a : loc) (threshold : option loc) : M loc :=
  let threshold := from_option id (normalize_position_default ms) threshold in
  normalized_position <- Vec2 F64.zero F64.zero ;;
  (a0 <- getitem a 0 ;;
   t0 <- getitem threshold 0 ;;
   e0 <- lift (py_sub (PFloat F64.one) t0) ;;
   gt0 <- lift (py_gt a0 e0) ;;
   if gt0 : bool then setitem normalized_position 0 (PFloat F64.one)
   else
     a0 <- getitem a 0 ;;
     t0 <- getitem threshold 0 ;;
     lt0 <- lift (py_lt a0 t0) ;;
     if lt0 : bool then setitem normalized_position 0 (PFloat F64.neg_one)
     else ret tt) ;;
  (a1 <- getitem a 1 ;;
   t1 <- getitem threshold 1 ;;
   e1 <- lift (py_sub (PFloat F64.one) t1) ;;
   gt1 <- lift (py_gt a1 e1) ;;
   if gt1 : bool then setitem normalized_position 1 (PFloat F64.one)
   else
     a1 <- getitem a 1 ;;
     t1 <- getitem threshold 1 ;;
     lt1 <- lift (py_lt a1 t1) ;;
     if lt1 : bool then setitem normalized_position 1 (PFloat F64.neg_one)
     else ret tt) ;;
  ret normalized_position.

(** ** Properties the specification speaks of *)

(** The value the [if]/[elif] pair of [normalize_velocity] leaves in one
    component, for velocity component [c] and threshold component [t]. *)
Definition velocity_axis (c t : F64.t) : F64.t :=
  if F64.ltb t c then F64.one
  else if F64.ltb c (F64.opp t) then F64.neg_one
  else F64.zero.

(** The same for [normalize_position]. *)
Definition position_axis (c t : F64.t) : F64.t :=
  if F64.ltb (F64.sub F64.one t) c then F64.one
  else if F64.ltb c t then F64.neg_one
  else F64.zero.

(** The specification's per-axis policy for velocities, the cases read in
    order: 1 if [c > t]; -1 if [c < -t]; 0 otherwise, which includes
    [-t <= c <= t]. *)
Definition velocity_policy (c t o : F64.t) : Prop :=
  (F64.ltb t c = true -> o = F64.one) /\
  (F64.ltb t c = false -> F64.ltb c (F64.opp t) = true -> o = F64.neg_one) /\
  (F64.ltb t c = false -> F64.ltb c (F64.opp t) = false -> o = F64.zero) /\
  (F64.leb (F64.opp t) c = true -> F64.leb c t = true -> o = F64.zero).

(** The specification's per-axis policy for positions, the cases read in
    order: 1 if [c > 1 - t]; -1 if [c < t]; 0 otherwise. *)
Definition position_policy (c t o : F64.t) : Prop :=
  (F64.ltb (F64.sub F64.one t) c = true -> o = F64.one) /\
  (F64.ltb (F64.sub F64.one t) c = false -> F64.ltb c t = true -> o = F64.neg_one) /\
  (F64.ltb (F64.sub F64.one t) c = false -> F64.ltb c t = false -> o = F64.zero).

(** Membership in {-1, 0, 1}. *)
Definition ternary (x : F64.t) : Prop :=
  x = F64.neg_one \/ x = F64.zero \/ x = F64.one.

(** Invariants of a computation: [keeps I m] when [m] leaves a heap that
    satisfies [I] whenever it starts in one, whether it returns or raises. *)
Definition keeps {A} (I : heap -> Prop) (m : M A) : Prop :=
  forall h, I h -> I (heap_after m h).

(** What holds of the heap while a quantizer fills in the vector [r] it
    has built from the heap [h0]: every object of [h0] is as it was, and
    [r] is an object that [h0] did not have. *)
Definition heap_inv (h0 : heap) (r : loc) (h : heap) : Prop :=
  h0 ⊆ h /\ h0 !! r = None /\ is_Some (h !! r).

(** The frame of a call that returns a vector: the objects of the heap it
    started in are untouched, whether it returns or raises, and what it
    returns is an object that heap did not have. *)
Definition builds_new (m : M loc) : Prop :=
  forall h,
    h ⊆ heap_after m h /\
    forall r, fst (m h) = Returns r ->
      h !! r = None /\ is_Some (heap_after m h !! r).

(** A caller's successive calls into the module. *)
Inductive call :=
| call_get_velocity (a b : HumanEvent)
| call_normalize_velocity (a : loc) (threshold : option loc)
| call_normalize_position (a : loc) (threshold : option loc).

Definition run_call (ms : module_state) (c : call) : M loc :=
  match c with
  | call_get_velocity a b => get_velocity a b
  | call_normalize_velocity a threshold => normalize_velocity ms a threshold
  | call_normalize_position a threshold => normalize_position ms a threshold
  end.

(** The heap after a sequence of calls, each started in the heap the one
    before it left (an exception ends a call, not the caller). *)
Fixpoint run_calls (ms : module_state) (cs : list call) (h : heap) : heap :=
  match cs with
  | [] => h
  | c :: cs' => run_calls ms cs' (heap_after (run_call ms c) h)
  end.

(** The two defaults are zero vectors in [h]. *)
Definition defaults_zero (ms : module_state) (h : heap) : Prop :=
  h !! normalize_velocity_default ms = Some [PFloat F64.zero; PFloat F64.zero] /\
  h !! normalize_position_default ms = Some [PFloat F64.zero; PFloat F64.zero].

(** ** Concrete states used in the examples below *)

(** The module state and heap right after the module is loaded into an
    empty heap. *)
Definition ms0 : module_state :=
  {| normalize_velocity_default := 1%positive;
     normalize_position_default := 2%positive |}.

Definition heap_loaded : heap :=
  <[2%positive := [PFloat F64.zero; PFloat F64.zero]]>
    (<[1%positive := [PFloat F64.zero; PFloat F64.zero]]> ∅).

(** Two more arrays, at references 3 and 4. *)
Definition heap2 (x y : ndarray) : heap :=
  <[4%positive := y]> (<[3%positive := x]> heap_loaded).

Definition vec (x y : F64.t) : ndarray := [PFloat x; PFloat y].

Definition event (p : loc) (ts : F64.t) : HumanEvent :=
  {| position := p; timestamp := ts |}.


(** The heap of the specification's example [normalize_velocity((5, -3),
    (2, 2))], and three calls made from it, the last two with the default
    threshold. *)
Definition heap_example : heap :=
  heap2 (vec (F64.of_Z 5) (F64.of_Z (-3))) (vec (F64.of_Z 2) (F64.of_Z 2)).

Definition calls_example : list call :=
  [call_normalize_velocity 3 (Some 4%positive);
   call_normalize_velocity 3 None;
   call_normalize_position 4 None].


(** ** Further properties of the three functions *)

(** A number that is neither an infinity nor NaN. *)
Definition finite_number (x : F64.t) : bool :=
  match x with S754_zero _ | S754_finite _ _ _ => true | _ => false end.

(** The sign of [c] as a direction: 1 above zero, -1 below zero, and 0
    for a zero of either sign and for NaN. *)
Definition sign_of (c o : F64.t) : Prop :=
  (F64.ltb F64.zero c = true -> o = F64.one) /\
  (F64.ltb c F64.zero = true -> o = F64.neg_one) /\
  (F64.ltb F64.zero c = false -> F64.ltb c F64.zero = false -> o = F64.zero).

(** An array of floats. *)
Definition floats (xs : list F64.t) : ndarray := PFloat <$> xs.

(** Three arrays besides the defaults, at references 3, 4 and 5. *)
Definition heap3 (x y z : ndarray) : heap := <[5%positive := z]> (heap2 x y).

(** A finite double: neither an infinity nor NaN, with its mantissa and
    exponent in the binary64 format. *)
Definition binary64 (x : F64.t) : bool :=
  finite_number x && valid_binary F64.prec F64.emax x.

(** * Facts about binary64 *)

(** Negating the sign given to the rounding functions negates what they
    return: rounding to nearest even does not look at the sign. *)
Section Rounding.
Variables prec emax : Z.

Lemma binary_round_aux_negb s m e l :
  binary_round_aux prec emax (negb s) m e l
  = SFopp (binary_round_aux prec emax s m e l).
Proof.
  unfold binary_round_aux.
  destruct (shr_fexp prec emax m e l) as [mrs' e'].
  destruct (shr_fexp prec emax _ e' loc_Exact) as [mrs'' e''].
  destruct (shr_m mrs''); [done | | done].
  by destruct (e'' <=? emax - prec)%Z.
Qed.

Lemma binary_round_negb s m e :
  binary_round prec emax (negb s) m e = SFopp (binary_round prec emax s m e).
Proof.
  unfold binary_round. destruct (shl_align _ _ _) as [mz ez].
  apply binary_round_aux_negb.
Qed.

Lemma binary_normalize_opp z e :
  z ≠ 0%Z ->
  binary_normalize prec emax (- z) e false
  = SFopp (binary_normalize prec emax z e false).
Proof.
  destruct z as [|p|p]; [done | |]; intros _; cbn.
  - apply (binary_round_negb false).
  - apply (binary_round_negb true).
Qed.

(** [y - x] is the opposite of [x - y], except that both are [+0] when
    the difference is exactly zero. *)
Lemma SFsub_swap x y :
  SFsub prec emax y x = SFopp (SFsub prec emax x y) \/
  (SFsub prec emax x y = S754_zero false /\ SFsub prec emax y x = S754_zero false).
Proof.
  destruct x as [sx|sx| |sx mx ex], y as [sy|sy| |sy my ey];
    try (destruct sx, sy; cbn; auto; fail);
    try (destruct sx; cbn; auto; fail);
    try (destruct sy; cbn; auto; fail);
    try (cbn; auto; fail).
  cbn. rewrite (Z.min_comm ey ex).
  set (A := cond_Zopp sx _). set (B := cond_Zopp sy _).
  destruct (decide (A - B = 0)%Z) as [E|E].
  - right. rewrite E. replace (B - A)%Z with 0%Z by lia. done.
  - left. replace (B - A)%Z with (- (A - B))%Z by lia.
    by apply binary_normalize_opp.
Qed.

Lemma SFdiv_opp_opp x y :
  SFdiv prec emax (SFopp x) (SFopp y) = SFdiv prec emax x y.
Proof.
  destruct x as [sx|sx| |sx mx ex], y as [sy|sy| |sy my ey]; cbn;
    rewrite ?xorb_negb_negb; done.
Qed.

End Rounding.

Lemma compare_swap (x y : F64.t) :
  SFcompare y x = CompOpp <$> SFcompare x y.
Proof.
  destruct x as [sx|sx| |sx mx ex], y as [sy|sy| |sy my ey];
    try destruct sx; try destruct sy; try reflexivity.
  all: cbn; rewrite (Z.compare_antisym ex ey);
    destruct (ex ?= ey)%Z; cbn; try reflexivity;
    rewrite <- (Pos.compare_cont_antisym _ _ Eq); cbn; try reflexivity.
Qed.

Lemma compare_refl (x : F64.t) :
  F64.is_nan x = false -> SFcompare x x = Some Eq.
Proof.
  destruct x as [s|s| |s m e]; try destruct s; cbn; try done.
  all: intros _; rewrite Z.compare_refl;
    change (Pos.compare_cont Eq m m) with (Pos.compare m m);
    by rewrite Pos.compare_refl.
Qed.

Lemma ltb_irrefl (x : F64.t) : F64.ltb x x = false.
Proof.
  unfold F64.ltb, SFltb. destruct (F64.is_nan x) eqn:E.
  - by destruct x.
  - by rewrite compare_refl.
Qed.

Lemma leb_not_gt (x y : F64.t) : F64.leb x y = true -> F64.ltb y x = false.
Proof.
  unfold F64.leb, F64.ltb, SFleb, SFltb. rewrite (compare_swap x y).
  by destruct (SFcompare x y) as [[]|].
Qed.

Lemma nonneg_not_lt_opp (t : F64.t) :
  F64.leb F64.zero t = true -> F64.ltb t (F64.opp t) = false.
Proof. destruct t as [s|s| |s m e]; try destruct s; done. Qed.

Lemma neg_lt_opp (t : F64.t) :
  F64.ltb t F64.zero = true -> F64.ltb t (F64.opp t) = true.
Proof. destruct t as [s|s| |s m e]; try destruct s; done. Qed.

(** Under a negative threshold the two tests leave no gap: a number that
    is not above [t] is below [-t]. *)
Lemma neg_threshold_cover (c t : F64.t) :
  F64.ltb t F64.zero = true -> F64.is_nan c = false ->
  F64.ltb t c = false -> F64.ltb c (F64.opp t) = true.
Proof.
  destruct t as [s|s| |s m e]; try destruct s; try done;
    destruct c as [s'|s'| |s' m' e']; try destruct s'; done.
Qed.

Lemma eqb_opp_zero (x : F64.t) :
  F64.eqb (F64.opp x) F64.zero = F64.eqb x F64.zero.
Proof. destruct x as [s|s| |s m e]; try destruct s; done. Qed.

Lemma same_number_refl (x : F64.t) : F64.same_number x x.
Proof.
  destruct (F64.is_nan x) eqn:E; [by left|right].
  unfold F64.eqb, SFeqb. by rewrite compare_refl.
Qed.

Lemma div_zero_same (s s' : bool) (d : F64.t) :
  F64.same_number (F64.div (S754_zero s) d) (F64.div (S754_zero s') (F64.opp d)).
Proof. destruct d as [sd|sd| |sd m e]; cbn; (by left) || (by right). Qed.

Lemma sub_swap (x y : F64.t) :
  F64.sub y x = F64.opp (F64.sub x y) \/
  (F64.sub x y = S754_zero false /\ F64.sub y x = S754_zero false).
Proof. apply SFsub_swap. Qed.

(** One component of the velocity, computed from [a] to [b] and from [b]
    to [a]: numerator and denominator both change sign. *)
Lemma velocity_component_swap (x x' d d' : F64.t) :
  (x' = F64.opp x \/ (x = S754_zero false /\ x' = S754_zero false)) ->
  d' = F64.opp d ->
  F64.same_number (F64.div x d) (F64.div x' d').
Proof.
  intros [->|[-> ->]] ->.
  - unfold F64.div, F64.opp. rewrite SFdiv_opp_opp. apply same_number_refl.
  - apply div_zero_same.
Qed.

Lemma ternary_velocity_axis c t : ternary (velocity_axis c t).
Proof.
  unfold ternary, velocity_axis.
  destruct (F64.ltb t c); [auto|]. destruct (F64.ltb c (F64.opp t)); auto.
Qed.

Lemma ternary_position_axis c t : ternary (position_axis c t).
Proof.
  unfold ternary, position_axis.
  destruct (F64.ltb _ c); [auto|]. destruct (F64.ltb c t); auto.
Qed.

Lemma velocity_axis_policy c t : velocity_policy c t (velocity_axis c t).
Proof.
  unfold velocity_policy, velocity_axis. repeat split.
  - by intros ->.
  - by intros -> ->.
  - by intros -> ->.
  - intros H1%leb_not_gt H2%leb_not_gt. by rewrite H2, H1.
Qed.

Lemma position_axis_policy c t : position_policy c t (position_axis c t).
Proof.
  unfold position_policy, position_axis. repeat split.
  - by intros ->.
  - by intros -> ->.
  - by intros -> ->.
Qed.

(** * Running computations *)

Lemma fresh_loc_None (h : heap) : h !! fresh (dom h) = None.
Proof. apply not_elem_of_dom, is_fresh. Qed.

Lemma fresh_loc_ne (h : heap) (l : loc) : is_Some (h !! l) -> fresh (dom h) ≠ l.
Proof. intros [v Hv] E. rewrite <- E, fresh_loc_None in Hv. done. Qed.

Lemma bind_assoc_run {A B C} (m : M A) (k1 : A -> M B) (k2 : B -> M C) h :
  bind (bind m k1) k2 h = bind m (fun a => bind (k1 a) k2) h.
Proof. unfold bind. by destruct (m h) as [[a|e] h']. Qed.

Lemma bind_returns {A B} (m : M A) (k : A -> M B) h a h' :
  m h = (Returns a, h') -> bind m k h = k a h'.
Proof. intros E. unfold bind. by rewrite E. Qed.

Lemma bind_raises {A B} (m : M A) (k : A -> M B) h e h' :
  m h = (Raises e, h') -> bind m k h = (Raises e, h').
Proof. intros E. unfold bind. by rewrite E. Qed.

Lemma bind_lift_returns {A B} (a : A) (k : A -> M B) h :
  bind (lift (Returns a)) k h = k a h.
Proof. reflexivity. Qed.

Lemma bind_lift_raises {A B} e (k : A -> M B) h :
  bind (lift (Raises e)) k h = (Raises e, h).
Proof. reflexivity. Qed.

Lemma bind_ret {A B} (a : A) (k : A -> M B) h : bind (ret a) k h = k a h.
Proof. reflexivity. Qed.

Lemma bind_alloc {B} arr (k : loc -> M B) h :
  bind (alloc arr) k h = k (fresh (dom h)) (<[fresh (dom h) := arr]> h).
Proof. reflexivity. Qed.

Lemma deref_run h l arr : h !! l = Some arr -> deref l h = (Returns arr, h).
Proof. intros E. unfold deref. by rewrite E. Qed.

Lemma getitem_run h l arr i v :
  h !! l = Some arr -> arr !! i = Some v -> getitem l i h = (Returns v, h).
Proof.
  intros E1 E2. unfold getitem.
  by rewrite (bind_returns _ _ _ _ _ (deref_run _ _ _ E1)), E2.
Qed.

Lemma getitem_raises h l arr i :
  h !! l = Some arr -> arr !! i = None -> getitem l i h = (Raises IndexError, h).
Proof.
  intros E1 E2. unfold getitem.
  by rewrite (bind_returns _ _ _ _ _ (deref_run _ _ _ E1)), E2.
Qed.

Lemma setitem_run h l arr i v :
  h !! l = Some arr -> (i < length arr)%nat ->
  setitem l i v h = (Returns tt, <[l := <[i := v]> arr]> h).
Proof.
  intros E1 E2. unfold setitem.
  rewrite (bind_returns _ _ _ _ _ (deref_run _ _ _ E1)).
  by rewrite decide_True.
Qed.

Lemma validate_vec2_run h l arr :
  h !! l = Some arr -> is_vec2 arr = true -> validate_vec2 l h = (Returns tt, h).
Proof.
  intros E1 E2. unfold validate_vec2.
  by rewrite (bind_returns _ _ _ _ _ (deref_run _ _ _ E1)), E2.
Qed.

Lemma validate_vec2_raises h l arr :
  h !! l = Some arr -> is_vec2 arr = false ->
  validate_vec2 l h = (Raises ValidationError, h).
Proof.
  intros E1 E2. unfold validate_vec2.
  by rewrite (bind_returns _ _ _ _ _ (deref_run _ _ _ E1)), E2.
Qed.

(** Symbolic execution of a computation applied to a heap: the head of
    the sequence is run with the lemmas above, lookups being settled from
    the hypotheses, and every test met on the way splits the goal. *)
Ltac lookup_tac :=
  repeat (rewrite lookup_insert_ne by done);
  first [eassumption | apply lookup_insert_eq].

Ltac run1 :=
  first
    [ rewrite bind_assoc_run
    | rewrite bind_lift_returns
    | rewrite bind_lift_raises
    | rewrite bind_ret
    | erewrite (bind_returns (getitem _ _))
        by (eapply getitem_run; [lookup_tac | reflexivity])
    | erewrite (bind_raises (getitem _ _))
        by (eapply getitem_raises; [lookup_tac | reflexivity])
    | erewrite (bind_returns (validate_vec2 _))
        by (eapply validate_vec2_run; [lookup_tac | reflexivity])
    | erewrite (bind_raises (validate_vec2 _))
        by (eapply validate_vec2_raises; [lookup_tac | reflexivity])
    | erewrite (bind_returns (setitem _ _ _))
        by (eapply setitem_run; [lookup_tac | cbn; lia])
    | erewrite setitem_run by (first [lookup_tac | cbn; lia])
    | rewrite insert_insert_eq ];
  cbv beta.

Ltac run :=
  repeat first
    [ run1
    | progress cbn [py_gt py_lt py_neg py_sub py_truediv
                    list_insert insert from_option id]
    | match goal with
      | |- context [if ?b then _ else _] => destruct b eqn:?
      end ].

(** The result of a computation that is known to return [r] and to leave
    [arr] behind it. *)
Lemma result_of_run (m : M loc) h r arr h' :
  m h = (Returns r, <[r := arr]> h') -> result_of m h = Returns arr.
Proof. intros E. unfold result_of. by rewrite E, lookup_insert_eq. Qed.

Lemma result_of_raises (m : M loc) h e h' :
  m h = (Raises e, h') -> result_of m h = Raises e.
Proof. intros E. unfold result_of. by rewrite E. Qed.

(** ** The three functions on well-formed arguments *)

Lemma normalize_velocity_run ms h a th c0 c1 t0 t1 :
  h !! a = Some [PFloat c0; PFloat c1] ->
  h !! th = Some [PFloat t0; PFloat t1] ->
  normalize_velocity ms a (Some th) h =
    (Returns (fresh (dom h)),
     <[fresh (dom h) := [PFloat (velocity_axis c0 t0); PFloat (velocity_axis c1 t1)]]> h).
Proof.
  intros Ha Hth.
  pose proof (fresh_loc_ne h a ltac:(eauto)) as Na.
  pose proof (fresh_loc_ne h th ltac:(eauto)) as Nth.
  unfold normalize_velocity, velocity_axis, Vec2. cbn [from_option id].
  do 2 run1. rewrite bind_alloc.
  set (r := fresh (dom h)) in *.
  run; reflexivity.
Qed.

(** [normalize_position] reads indexes 0 and 1 only: whatever follows
    them in either array is ignored. *)
Lemma normalize_position_run ms h a th c0 c1 t0 t1 ca ta :
  h !! a = Some (PFloat c0 :: PFloat c1 :: ca) ->
  h !! th = Some (PFloat t0 :: PFloat t1 :: ta) ->
  normalize_position ms a (Some th) h =
    (Returns (fresh (dom h)),
     <[fresh (dom h) := [PFloat (position_axis c0 t0); PFloat (position_axis c1 t1)]]> h).
Proof.
  intros Ha Hth.
  pose proof (fresh_loc_ne h a ltac:(eauto)) as Na.
  pose proof (fresh_loc_ne h th ltac:(eauto)) as Nth.
  unfold normalize_position, position_axis, Vec2. cbn [from_option id].
  rewrite bind_alloc.
  set (r := fresh (dom h)) in *.
  run; reflexivity.
Qed.

Lemma get_velocity_run h a b ax ay bx by_ :
  h !! position a = Some [PFloat ax; PFloat ay] ->
  h !! position b = Some [PFloat bx; PFloat by_] ->
  F64.eqb (F64.sub (timestamp b) (timestamp a)) F64.zero = false ->
  get_velocity a b h =
    (Returns (fresh (dom h)),
     <[fresh (dom h) :=
         [PFloat (F64.div (F64.sub bx ax) (F64.sub (timestamp b) (timestamp a)));
          PFloat (F64.div (F64.sub by_ ay) (F64.sub (timestamp b) (timestamp a)))]]> h).
Proof.
  intros Ha Hb Hdt. unfold get_velocity. rewrite Hdt.
  rewrite (bind_returns _ _ _ _ _ (deref_run _ _ _ Hb)).
  rewrite (bind_returns _ _ _ _ _ (deref_run _ _ _ Ha)).
  reflexivity.
Qed.

Lemma get_velocity_zero_run h a b :
  F64.eqb (F64.sub (timestamp b) (timestamp a)) F64.zero = true ->
  get_velocity a b h =
    (Returns (fresh (dom h)),
     <[fresh (dom h) := [PFloat F64.zero; PFloat F64.zero]]> h).
Proof. intros Hdt. unfold get_velocity. by rewrite Hdt. Qed.

(** * What a call does to the heap *)

Lemma keeps_reads {A} (I : heap -> Prop) (m : M A) :
  (forall h, heap_after m h = h) -> keeps I m.
Proof. intros E h Hh. by rewrite E. Qed.

Lemma keeps_bind {A B} (I : heap -> Prop) (m : M A) (k : A -> M B) :
  keeps I m -> (forall a, keeps I (k a)) -> keeps I (bind m k).
Proof.
  intros Hm Hk h Hh. specialize (Hm h Hh).
  unfold heap_after, bind in *.
  destruct (m h) as [[a|e] h']; [by apply Hk | done].
Qed.

Lemma keeps_if {A} (I : heap -> Prop) (b : bool) (m1 m2 : M A) :
  keeps I m1 -> keeps I m2 -> keeps I (if b then m1 else m2).
Proof. by destruct b. Qed.

Lemma keeps_ret {A} (I : heap -> Prop) (a : A) : keeps I (ret a).
Proof. by apply keeps_reads. Qed.

Lemma keeps_lift {A} (I : heap -> Prop) (o : outcome A) : keeps I (lift o).
Proof. by apply keeps_reads. Qed.

Lemma deref_reads l h : heap_after (deref l) h = h.
Proof. unfold heap_after, deref. by destruct (h !! l). Qed.

Lemma getitem_reads l i h : heap_after (getitem l i) h = h.
Proof.
  unfold heap_after, getitem, bind, deref.
  destruct (h !! l) as [arr|]; [|done]. by destruct (arr !! i).
Qed.

Lemma validate_vec2_reads l h : heap_after (validate_vec2 l) h = h.
Proof.
  unfold heap_after, validate_vec2, bind, deref.
  destruct (h !! l) as [arr|]; [|done]. by destruct (is_vec2 arr).
Qed.

Lemma keeps_getitem (I : heap -> Prop) l i : keeps I (getitem l i).
Proof. apply keeps_reads, getitem_reads. Qed.

(** Writing into the new vector keeps the objects of the old heap. *)
Lemma keeps_setitem h0 r i v : keeps (heap_inv h0 r) (setitem r i v).
Proof.
  intros h (Hsub & Hnew & Hr). unfold heap_after, setitem, bind, deref.
  destruct (h !! r) as [arr|] eqn:E; [|done].
  destruct (decide (i < length arr)%nat); [|done]. cbn.
  split_and!; [by apply insert_subseteq_r | done | by rewrite lookup_insert_eq].
Qed.

Create HintDb keeps.
#[local] Hint Resolve keeps_ret keeps_lift keeps_getitem keeps_setitem : keeps.
#[local] Hint Extern 2 (keeps _ (bind _ _)) => apply keeps_bind; [|intros ?] : keeps.
#[local] Hint Extern 2 (keeps _ (if _ then _ else _)) => apply keeps_if : keeps.

Lemma heap_inv_alloc h arr :
  heap_inv h (fresh (dom h)) (<[fresh (dom h) := arr]> h).
Proof.
  split_and!.
  - apply insert_subseteq, fresh_loc_None.
  - apply fresh_loc_None.
  - by rewrite lookup_insert_eq.
Qed.

(** A body that fills in [r] and returns it. *)
Lemma fill_and_return (I : heap -> Prop) (m1 m2 : M unit) (r : loc) h :
  keeps I m1 -> keeps I m2 -> I h ->
  I (heap_after (m1 ;; m2 ;; ret r) h) /\
  forall r', fst ((m1 ;; m2 ;; ret r) h) = Returns r' -> r' = r.
Proof.
  intros H1 H2 Hh. specialize (H1 h Hh). unfold heap_after, bind in *.
  destruct (m1 h) as [[[]|e1] h1]; cbn in *; [|by split].
  specialize (H2 h1 H1). unfold heap_after in H2.
  destruct (m2 h1) as [[[]|e2] h2]; cbn in *; [|by split].
  split; [done|]. by intros r' [= <-].
Qed.


Lemma builds_new_after_read {A} (m : M A) (k : A -> M loc) :
  (forall h, heap_after m h = h) -> (forall a, builds_new (k a)) ->
  builds_new (bind m k).
Proof.
  intros Hm Hk h. specialize (Hm h). unfold heap_after, bind in *.
  destruct (m h) as [[a|e] h1]; cbn in Hm; subst h1.
  - apply Hk.
  - by split.
Qed.

Lemma builds_new_fill arr (m1 m2 : loc -> M unit) :
  (forall h0 r, keeps (heap_inv h0 r) (m1 r)) ->
  (forall h0 r, keeps (heap_inv h0 r) (m2 r)) ->
  builds_new (r <- alloc arr ;; m1 r ;; m2 r ;; ret r).
Proof.
  intros H1 H2 h. unfold heap_after. rewrite bind_alloc.
  set (r := fresh (dom h)).
  destruct (fill_and_return (heap_inv h r) (m1 r) (m2 r) r (<[r := arr]> h))
    as [(Hsub & Hnew & Hr) Hret]; [done | done | apply heap_inv_alloc |].
  unfold heap_after in *. split; [done|].
  by intros r' ->%Hret.
Qed.

Lemma normalize_velocity_builds_new ms a th :
  builds_new (normalize_velocity ms a th).
Proof.
  unfold normalize_velocity, Vec2.
  apply builds_new_after_read; [apply validate_vec2_reads | intros _].
  apply builds_new_after_read; [apply validate_vec2_reads | intros _].
  apply builds_new_fill; intros h0 r; auto 20 with keeps.
Qed.

Lemma normalize_position_builds_new ms a th :
  builds_new (normalize_position ms a th).
Proof.
  unfold normalize_position, Vec2.
  apply builds_new_fill; intros h0 r; auto 20 with keeps.
Qed.

Lemma alloc_builds_new arr : builds_new (alloc arr).
Proof.
  intros h. unfold heap_after, alloc. cbn. split.
  - apply insert_subseteq, fresh_loc_None.
  - intros r [= <-]. split; [apply fresh_loc_None | by rewrite lookup_insert_eq].
Qed.

Lemma get_velocity_builds_new a b : builds_new (get_velocity a b).
Proof.
  intros h. unfold get_velocity.
  destruct (F64.eqb _ _); [apply alloc_builds_new|].
  unfold heap_after, bind, deref, lift.
  destruct (h !! position b) as [pb|]; [|by split].
  destruct (h !! position a) as [pa|]; [|by split].
  destruct (np_subtract pb pa) as [d|e]; [|by split].
  destruct (np_divide_scalar d _) as [v|e]; [|by split].
  apply alloc_builds_new.
Qed.

Lemma run_call_builds_new ms c : builds_new (run_call ms c).
Proof.
  destruct c; cbn.
  - apply get_velocity_builds_new.
  - apply normalize_velocity_builds_new.
  - apply normalize_position_builds_new.
Qed.

(** No sequence of calls changes an object that was there before it. *)
Lemma run_calls_extends ms cs h : h ⊆ run_calls ms cs h.
Proof.
  revert h. induction cs as [|c cs IH]; intros h; cbn; [done|].
  etrans; [apply (run_call_builds_new ms c h) | apply IH].
Qed.

Lemma run_calls_defaults ms cs h :
  defaults_zero ms h -> defaults_zero ms (run_calls ms cs h).
Proof.
  intros [H1 H2]. pose proof (run_calls_extends ms cs h) as Hsub.
  split; eapply lookup_weaken; eauto.
Qed.

(** ** Arguments of any shape *)

Lemma is_vec2_inv arr :
  is_vec2 arr = true -> exists x y, arr = [PFloat x; PFloat y].
Proof.
  destruct arr as [|[x|] [|[y|] [|z arr]]]; try done. eauto.
Qed.

(** The default threshold is an object like any other. *)
Lemma normalize_velocity_default_eq ms a :
  normalize_velocity ms a None
  = normalize_velocity ms a (Some (normalize_velocity_default ms)).
Proof. reflexivity. Qed.

Lemma normalize_position_default_eq ms a :
  normalize_position ms a None
  = normalize_position ms a (Some (normalize_position_default ms)).
Proof. reflexivity. Qed.

(** A call with the default threshold returns what a call with a zero
    vector built for the occasion returns. *)
Lemma normalize_velocity_default_fresh ms h a :
  is_Some (h !! a) ->
  h !! normalize_velocity_default ms = Some [PFloat F64.zero; PFloat F64.zero] ->
  result_of (normalize_velocity ms a None) h
  = result_of (z <- Vec2 F64.zero F64.zero ;; normalize_velocity ms a (Some z)) h.
Proof.
  intros [A Ha] Hd. rewrite normalize_velocity_default_eq.
  pose proof (fresh_loc_ne h a ltac:(eauto)) as Na.
  unfold result_of at 2. unfold Vec2. rewrite bind_alloc.
  fold (result_of (normalize_velocity ms a (Some (fresh (dom h))))
          (<[fresh (dom h) := [PFloat F64.zero; PFloat F64.zero]]> h)).
  set (z := fresh (dom h)) in *.
  set (h1 := <[z := [PFloat F64.zero; PFloat F64.zero]]> h).
  assert (Ha1 : h1 !! a = Some A) by (unfold h1; by rewrite lookup_insert_ne).
  assert (Hz1 : h1 !! z = Some [PFloat F64.zero; PFloat F64.zero])
    by apply lookup_insert_eq.
  destruct (is_vec2 A) eqn:EA.
  - apply is_vec2_inv in EA as (c0 & c1 & ->).
    rewrite (result_of_run _ _ _ _ _ (normalize_velocity_run ms h _ _ _ _ _ _ Ha Hd)).
    by rewrite (result_of_run _ _ _ _ _ (normalize_velocity_run ms h1 _ _ _ _ _ _ Ha1 Hz1)).
  - unfold result_of, normalize_velocity. cbn [from_option id].
    rewrite (bind_raises _ _ _ _ _ (validate_vec2_raises h a A Ha EA)).
    by rewrite (bind_raises _ _ _ _ _ (validate_vec2_raises h1 a A Ha1 EA)).
Qed.

Ltac run_result :=
  unfold result_of, normalize_position, Vec2; cbn [from_option id];
  rewrite ?bind_alloc; run; cbn; rewrite ?lookup_insert_eq.

Lemma normalize_position_default_fresh ms h a :
  is_Some (h !! a) ->
  h !! normalize_position_default ms = Some [PFloat F64.zero; PFloat F64.zero] ->
  result_of (normalize_position ms a None) h
  = result_of (z <- Vec2 F64.zero F64.zero ;; normalize_position ms a (Some z)) h.
Proof.
  intros [A Ha] Hd. rewrite normalize_position_default_eq.
  pose proof (fresh_loc_ne h a ltac:(eauto)) as Na.
  pose proof (fresh_loc_ne h _ ltac:(eauto)) as Nd.
  unfold result_of at 2. unfold Vec2. rewrite bind_alloc.
  fold (result_of (normalize_position ms a (Some (fresh (dom h))))
          (<[fresh (dom h) := [PFloat F64.zero; PFloat F64.zero]]> h)).
  set (z := fresh (dom h)) in *.
  set (h1 := <[z := [PFloat F64.zero; PFloat F64.zero]]> h).
  assert (Ha1 : h1 !! a = Some A) by (unfold h1; by rewrite lookup_insert_ne).
  assert (Hz1 : h1 !! z = Some [PFloat F64.zero; PFloat F64.zero])
    by apply lookup_insert_eq.
  pose proof (fresh_loc_ne h1 a ltac:(eauto)) as Na1.
  pose proof (fresh_loc_ne h1 z ltac:(eauto)) as Nz1.
  destruct A as [|[c0|] [|[c1|] ca]].
  3: { rewrite (result_of_run _ _ _ _ _ (normalize_position_run ms h _ _ _ _ _ _ _ _ Ha Hd)).
       by rewrite (result_of_run _ _ _ _ _ (normalize_position_run ms h1 _ _ _ _ _ _ _ _ Ha1 Hz1)). }
  all: clearbody h1; run_result; reflexivity.
Qed.

(** [normalize_position] on arguments of any shape: it quantizes indexes
    0 and 1 when both arrays hold numbers there, and raises [IndexError]
    or [TypeError] otherwise. *)
Lemma normalize_position_outcomes ms h a th A T :
  h !! a = Some A -> h !! th = Some T ->
  (exists c0 c1 ca t0 t1 ta,
      A = PFloat c0 :: PFloat c1 :: ca /\ T = PFloat t0 :: PFloat t1 :: ta /\
      result_of (normalize_position ms a (Some th)) h
      = Returns [PFloat (position_axis c0 t0); PFloat (position_axis c1 t1)]) \/
  result_of (normalize_position ms a (Some th)) h = Raises IndexError \/
  result_of (normalize_position ms a (Some th)) h = Raises TypeError.
Proof.
  intros Ha Hth.
  pose proof (fresh_loc_ne h a ltac:(eauto)) as Na.
  pose proof (fresh_loc_ne h th ltac:(eauto)) as Nth.
  destruct A as [|[c0|] [|[c1|] ca]], T as [|[t0|] [|[t1|] ta]].
  all: try match goal with
    | _ : _ !! _ = Some (PFloat ?c0 :: PFloat ?c1 :: ?ca),
      _ : _ !! _ = Some (PFloat ?t0 :: PFloat ?t1 :: ?ta) |- _ =>
        left; exists c0, c1, ca, t0, t1, ta; split_and!; [done | done |];
        eapply result_of_run; by eapply normalize_position_run
    end.
  all: right; run_result; auto.
Qed.

(** * The velocity between two events *)

(** C1: when [b.timestamp - a.timestamp] is not zero, [get_velocity a b]
    is the vector of the quotients
    [(b.position - a.position) / (b.timestamp - a.timestamp)], one per
    axis, each computed from that axis alone. *)
Theorem get_velocity_formula h a b ax ay bx by_ :
  h !! position a = Some [PFloat ax; PFloat ay] ->
  h !! position b = Some [PFloat bx; PFloat by_] ->
  F64.eqb (F64.sub (timestamp b) (timestamp a)) F64.zero = false ->
  result_of (get_velocity a b) h =
    Returns
      [PFloat (F64.div (F64.sub bx ax) (F64.sub (timestamp b) (timestamp a)));
       PFloat (F64.div (F64.sub by_ ay) (F64.sub (timestamp b) (timestamp a)))].
Proof.
  intros Ha Hb Hdt. eapply result_of_run.
  by apply get_velocity_run.
Qed.

(** From (1, 2) at 10 ms to (4, 8) at 13 ms: (1, 2) per millisecond. *)
Lemma get_velocity_formula_witness :
  result_of
    (get_velocity (event 3 (F64.of_Z 10)) (event 4 (F64.of_Z 13)))
    (heap2 (vec (F64.of_Z 1) (F64.of_Z 2)) (vec (F64.of_Z 4) (F64.of_Z 8)))
  = Returns (vec (F64.of_Z 1) (F64.of_Z 2)).
Proof.
  apply (get_velocity_formula
           (heap2 (vec (F64.of_Z 1) (F64.of_Z 2)) (vec (F64.of_Z 4) (F64.of_Z 8)))
           (event 3 (F64.of_Z 10)) (event 4 (F64.of_Z 13))
           (F64.of_Z 1) (F64.of_Z 2) (F64.of_Z 4) (F64.of_Z 8));
    reflexivity.
Defined.

(** C2: when [b.timestamp - a.timestamp] is zero, [get_velocity a b]
    returns the zero vector, whatever the positions are, and raises
    nothing. *)
Theorem get_velocity_equal_timestamps h a b :
  F64.eqb (F64.sub (timestamp b) (timestamp a)) F64.zero = true ->
  result_of (get_velocity a b) h = Returns [PFloat F64.zero; PFloat F64.zero].
Proof.
  intros Hdt. eapply result_of_run.
  by apply get_velocity_zero_run.
Qed.

Lemma get_velocity_equal_timestamps_witness :
  result_of
    (get_velocity (event 3 (F64.of_Z 10)) (event 4 (F64.of_Z 10)))
    (heap2 (vec (F64.of_Z 1) (F64.of_Z 2)) (vec (F64.of_Z 4) (F64.of_Z 8)))
  = Returns [PFloat F64.zero; PFloat F64.zero].
Proof.
  apply (get_velocity_equal_timestamps
           (heap2 (vec (F64.of_Z 1) (F64.of_Z 2)) (vec (F64.of_Z 4) (F64.of_Z 8)))
           (event 3 (F64.of_Z 10)) (event 4 (F64.of_Z 10))).
  reflexivity.
Defined.

(** C6, as the specification states it, fails: from (0, 0) at 0 ms to
    (1, 0) at 1 ms the velocity is (1, 0) in either order of the
    arguments, so it is not the opposite of the swapped call. *)
Lemma get_velocity_not_antisymmetric :
  exists u v nv,
    F64.eqb (timestamp (event 3 F64.zero)) (timestamp (event 4 F64.one)) = false /\
    result_of (get_velocity (event 3 F64.zero) (event 4 F64.one))
      (heap2 (vec F64.zero F64.zero) (vec F64.one F64.zero)) = Returns u /\
    result_of (get_velocity (event 4 F64.one) (event 3 F64.zero))
      (heap2 (vec F64.zero F64.zero) (vec F64.one F64.zero)) = Returns v /\
    np_negative v = Returns nv /\
    array_equal u nv = false /\
    array_equal u v = true.
Proof.
  exists (vec F64.one F64.zero), (vec F64.one (F64.opp F64.zero)),
         (vec F64.neg_one F64.zero).
  split_and!; reflexivity.
Qed.

(** C6, amended: swapping the two events changes the sign of both the
    displacement and the elapsed time, so the velocity is the same in
    either order: per axis the two results compare equal, or both are NaN
    (an undefined quotient such as inf/inf). *)
Theorem get_velocity_swap_symmetric h a b ax ay bx by_ :
  h !! position a = Some [PFloat ax; PFloat ay] ->
  h !! position b = Some [PFloat bx; PFloat by_] ->
  F64.eqb (timestamp a) (timestamp b) = false ->
  exists u0 u1 v0 v1,
    result_of (get_velocity a b) h = Returns [PFloat u0; PFloat u1] /\
    result_of (get_velocity b a) h = Returns [PFloat v0; PFloat v1] /\
    F64.same_number u0 v0 /\ F64.same_number u1 v1.
Proof.
  intros Ha Hb _.
  set (d := F64.sub (timestamp b) (timestamp a)).
  set (d' := F64.sub (timestamp a) (timestamp b)).
  assert (Hzero : F64.same_number F64.zero F64.zero) by apply same_number_refl.
  destruct (sub_swap (timestamp b) (timestamp a)) as [Ed|[Ed Ed']];
    fold d in Ed; fold d' in Ed; try fold d' in Ed'.
  - (* the elapsed time changes sign, and so does the displacement *)
    destruct (F64.eqb d F64.zero) eqn:Hdt.
    + assert (Hdt' : F64.eqb d' F64.zero = true) by (by rewrite Ed, eqb_opp_zero).
      exists F64.zero, F64.zero, F64.zero, F64.zero.
      rewrite (result_of_run _ _ _ _ _ (get_velocity_zero_run h a b Hdt)).
      by rewrite (result_of_run _ _ _ _ _ (get_velocity_zero_run h b a Hdt')).
    + assert (Hdt' : F64.eqb d' F64.zero = false) by (by rewrite Ed, eqb_opp_zero).
      eexists _, _, _, _.
      rewrite (result_of_run _ _ _ _ _ (get_velocity_run h a b _ _ _ _ Ha Hb Hdt)).
      rewrite (result_of_run _ _ _ _ _ (get_velocity_run h b a _ _ _ _ Hb Ha Hdt')).
      split_and!; [done | done | |];
        apply velocity_component_swap; (done || apply sub_swap).
  - (* the elapsed time is zero in both orders *)
    exists F64.zero, F64.zero, F64.zero, F64.zero.
    rewrite (result_of_run _ _ _ _ _ (get_velocity_zero_run h a b ltac:(by fold d; rewrite Ed))).
    by rewrite (result_of_run _ _ _ _ _ (get_velocity_zero_run h b a ltac:(by fold d'; rewrite Ed'))).
Qed.

Lemma get_velocity_swap_symmetric_witness :
  exists u0 u1 v0 v1,
    result_of (get_velocity (event 3 (F64.of_Z 10)) (event 4 (F64.of_Z 13)))
      (heap2 (vec (F64.of_Z 1) (F64.of_Z 2)) (vec (F64.of_Z 4) (F64.of_Z 8)))
    = Returns [PFloat u0; PFloat u1] /\
    result_of (get_velocity (event 4 (F64.of_Z 13)) (event 3 (F64.of_Z 10)))
      (heap2 (vec (F64.of_Z 1) (F64.of_Z 2)) (vec (F64.of_Z 4) (F64.of_Z 8)))
    = Returns [PFloat v0; PFloat v1] /\
    F64.same_number u0 v0 /\ F64.same_number u1 v1.
Proof.
  apply (get_velocity_swap_symmetric
           (heap2 (vec (F64.of_Z 1) (F64.of_Z 2)) (vec (F64.of_Z 4) (F64.of_Z 8)))
           (event 3 (F64.of_Z 10)) (event 4 (F64.of_Z 13))
           (F64.of_Z 1) (F64.of_Z 2) (F64.of_Z 4) (F64.of_Z 8));
    reflexivity.
Defined.

(** * The two quantizers *)

(** C3, as the specification states it, fails at a negative threshold:
    [normalize_velocity((-1, 0), (-1, 0))] has x-component -1, not 0,
    because -1 is below the negated threshold 1. *)
Lemma normalize_velocity_boundary_negative :
  result_of (normalize_velocity ms0 3 (Some 4%positive))
    (heap2 (vec F64.neg_one F64.zero) (vec F64.neg_one F64.zero))
  = Returns [PFloat F64.neg_one; PFloat F64.zero]
  /\ F64.eqb F64.neg_one F64.zero = false.
Proof. split; reflexivity. Qed.

(** C3, amended: for every velocity [(c0, c1)] and threshold [(t0, t1)],
    each component of [normalize_velocity] follows the per-axis policy,
    the cases read in order: 1 if [c > t]; -1 if [c < -t]; 0 otherwise,
    which includes [-t <= c <= t].  The comparisons are strict: on the
    boundary [c = t], as in [normalize_velocity((t, 0), (t, 0))], the
    x-component is 0 when [t >= 0], and -1 when [t < 0]. *)
Theorem normalize_velocity_policy ms h a th c0 c1 t0 t1 :
  h !! a = Some [PFloat c0; PFloat c1] ->
  h !! th = Some [PFloat t0; PFloat t1] ->
  exists o0 o1,
    result_of (normalize_velocity ms a (Some th)) h = Returns [PFloat o0; PFloat o1] /\
    velocity_policy c0 t0 o0 /\
    velocity_policy c1 t1 o1 /\
    (c0 = t0 -> F64.leb F64.zero t0 = true -> o0 = F64.zero) /\
    (c0 = t0 -> F64.ltb t0 F64.zero = true -> o0 = F64.neg_one).
Proof.
  intros Ha Hth. exists (velocity_axis c0 t0), (velocity_axis c1 t1).
  split_and!.
  - eapply result_of_run. by apply normalize_velocity_run.
  - apply velocity_axis_policy.
  - apply velocity_axis_policy.
  - intros -> Hpos. unfold velocity_axis.
    by rewrite ltb_irrefl, nonneg_not_lt_opp.
  - intros -> Hneg. unfold velocity_axis.
    by rewrite ltb_irrefl, neg_lt_opp.
Qed.

(** The boundary case of the specification at [t = 2]. *)
Lemma normalize_velocity_policy_witness :
  exists o0 o1,
    result_of (normalize_velocity ms0 3 (Some 4%positive))
      (heap2 (vec (F64.of_Z 2) F64.zero) (vec (F64.of_Z 2) F64.zero))
    = Returns [PFloat o0; PFloat o1] /\
    velocity_policy (F64.of_Z 2) (F64.of_Z 2) o0 /\
    velocity_policy F64.zero F64.zero o1 /\
    (F64.of_Z 2 = F64.of_Z 2 -> F64.leb F64.zero (F64.of_Z 2) = true -> o0 = F64.zero) /\
    (F64.of_Z 2 = F64.of_Z 2 -> F64.ltb (F64.of_Z 2) F64.zero = true -> o0 = F64.neg_one).
Proof.
  apply (normalize_velocity_policy ms0
           (heap2 (vec (F64.of_Z 2) F64.zero) (vec (F64.of_Z 2) F64.zero))
           3 4 (F64.of_Z 2) F64.zero (F64.of_Z 2) F64.zero);
    reflexivity.
Defined.

(** C4: for every position [(c0, c1)] and threshold [(t0, t1)], each
    component of [normalize_position] follows the per-axis policy: 1 if
    [c > 1 - t]; else -1 if [c < t]; else 0. *)
Theorem normalize_position_policy ms h a th c0 c1 t0 t1 :
  h !! a = Some [PFloat c0; PFloat c1] ->
  h !! th = Some [PFloat t0; PFloat t1] ->
  exists o0 o1,
    result_of (normalize_position ms a (Some th)) h = Returns [PFloat o0; PFloat o1] /\
    position_policy c0 t0 o0 /\
    position_policy c1 t1 o1.
Proof.
  intros Ha Hth. exists (position_axis c0 t0), (position_axis c1 t1).
  split_and!.
  - eapply result_of_run. by eapply normalize_position_run.
  - apply position_axis_policy.
  - apply position_axis_policy.
Qed.

(** The specification's example: (0.98, 0.5) with threshold (0.1, 0.1). *)
Lemma normalize_position_policy_witness :
  exists o0 o1,
    result_of (normalize_position ms0 3 (Some 4%positive))
      (heap2 (vec (F64.ratio 98 100) F64.half) (vec (F64.ratio 1 10) (F64.ratio 1 10)))
    = Returns [PFloat o0; PFloat o1] /\
    position_policy (F64.ratio 98 100) (F64.ratio 1 10) o0 /\
    position_policy F64.half (F64.ratio 1 10) o1.
Proof.
  apply (normalize_position_policy ms0
           (heap2 (vec (F64.ratio 98 100) F64.half)
                  (vec (F64.ratio 1 10) (F64.ratio 1 10)))
           3 4 (F64.ratio 98 100) F64.half (F64.ratio 1 10) (F64.ratio 1 10));
    reflexivity.
Defined.

(** C5: under a threshold whose two components are at least 0, every
    component of [normalize_velocity] and every component of
    [normalize_position] is -1, 0 or 1. *)
Theorem normalize_components_ternary ms h a th c0 c1 t0 t1 :
  h !! a = Some [PFloat c0; PFloat c1] ->
  h !! th = Some [PFloat t0; PFloat t1] ->
  F64.leb F64.zero t0 = true ->
  F64.leb F64.zero t1 = true ->
  (exists o0 o1,
      result_of (normalize_velocity ms a (Some th)) h = Returns [PFloat o0; PFloat o1] /\
      ternary o0 /\ ternary o1) /\
  (exists o0 o1,
      result_of (normalize_position ms a (Some th)) h = Returns [PFloat o0; PFloat o1] /\
      ternary o0 /\ ternary o1).
Proof.
  intros Ha Hth _ _. split.
  - exists (velocity_axis c0 t0), (velocity_axis c1 t1). split_and!.
    + eapply result_of_run. by apply normalize_velocity_run.
    + apply ternary_velocity_axis.
    + apply ternary_velocity_axis.
  - exists (position_axis c0 t0), (position_axis c1 t1). split_and!.
    + eapply result_of_run. by eapply normalize_position_run.
    + apply ternary_position_axis.
    + apply ternary_position_axis.
Qed.

(** The specification's example: (5, -3) with threshold (2, 2). *)
Lemma normalize_components_ternary_witness :
  (exists o0 o1,
      result_of (normalize_velocity ms0 3 (Some 4%positive))
        (heap2 (vec (F64.of_Z 5) (F64.of_Z (-3))) (vec (F64.of_Z 2) (F64.of_Z 2)))
      = Returns [PFloat o0; PFloat o1] /\
      ternary o0 /\ ternary o1) /\
  (exists o0 o1,
      result_of (normalize_position ms0 3 (Some 4%positive))
        (heap2 (vec (F64.of_Z 5) (F64.of_Z (-3))) (vec (F64.of_Z 2) (F64.of_Z 2)))
      = Returns [PFloat o0; PFloat o1] /\
      ternary o0 /\ ternary o1).
Proof.
  apply (normalize_components_ternary ms0
           (heap2 (vec (F64.of_Z 5) (F64.of_Z (-3))) (vec (F64.of_Z 2) (F64.of_Z 2)))
           3 4 (F64.of_Z 5) (F64.of_Z (-3)) (F64.of_Z 2) (F64.of_Z 2));
    reflexivity.
Defined.

(** C9, as stated for every velocity, fails at NaN: under the threshold
    (-1, -1) the velocity (NaN, 0) has x-component 0, because both
    comparisons with NaN are false. *)
Lemma normalize_velocity_negative_threshold_nan :
  F64.ltb F64.neg_one F64.zero = true /\
  result_of (normalize_velocity ms0 3 (Some 4%positive))
    (heap2 (vec S754_nan F64.zero) (vec F64.neg_one F64.neg_one))
  = Returns [PFloat F64.zero; PFloat F64.one].
Proof. split; reflexivity. Qed.

(** C9, amended: under a strictly negative threshold component [t], the
    component of [normalize_velocity] on that axis is never 0 for a
    velocity component [c] that is not NaN: it is 1 when [c > t], whether
    or not [c < -t] holds as well, and -1 otherwise.  For [c] NaN it is 0.
    ([i] is the axis, 0 or 1.) *)
Theorem normalize_velocity_negative_threshold ms h a th c0 c1 t0 t1 i c t :
  h !! a = Some [PFloat c0; PFloat c1] ->
  h !! th = Some [PFloat t0; PFloat t1] ->
  [c0; c1] !! i = Some c ->
  [t0; t1] !! i = Some t ->
  F64.ltb t F64.zero = true ->
  exists out o,
    result_of (normalize_velocity ms a (Some th)) h = Returns out /\
    out !! i = Some (PFloat o) /\
    (F64.is_nan c = false ->
     o = (if F64.ltb t c then F64.one else F64.neg_one) /\ o <> F64.zero) /\
    (F64.is_nan c = true -> o = F64.zero).
Proof.
  intros Ha Hth Hc Ht Hneg.
  exists [PFloat (velocity_axis c0 t0); PFloat (velocity_axis c1 t1)],
         (velocity_axis c t).
  split_and!.
  - eapply result_of_run. by apply normalize_velocity_run.
  - by destruct i as [|[|i]]; simplify_eq/=.
  - intros Hnum.
    assert (Hax : velocity_axis c t = if F64.ltb t c then F64.one else F64.neg_one).
    { unfold velocity_axis. destruct (F64.ltb t c) eqn:Hgt; [done|].
      by rewrite neg_threshold_cover. }
    split; [done|]. rewrite Hax. by destruct (F64.ltb t c).
  - intros Hnan. destruct c; try done. unfold velocity_axis.
    by destruct t as [s|s| |s m e]; try destruct s.
Qed.

(** Velocity (0, 0) under the threshold (-1, -1): the x-component is 1,
    although 0 < 1 = -t holds as well. *)
Lemma normalize_velocity_negative_threshold_witness :
  exists out o,
    result_of (normalize_velocity ms0 3 (Some 4%positive))
      (heap2 (vec F64.zero F64.zero) (vec F64.neg_one F64.neg_one)) = Returns out /\
    out !! 0%nat = Some (PFloat o) /\
    (F64.is_nan F64.zero = false ->
     o = (if F64.ltb F64.neg_one F64.zero then F64.one else F64.neg_one) /\
     o <> F64.zero) /\
    (F64.is_nan F64.zero = true -> o = F64.zero).
Proof.
  apply (normalize_velocity_negative_threshold ms0
           (heap2 (vec F64.zero F64.zero) (vec F64.neg_one F64.neg_one))
           3 4 F64.zero F64.zero F64.neg_one F64.neg_one 0%nat F64.zero F64.neg_one);
    reflexivity.
Defined.

(** C10: in [normalize_position] the far-edge test comes first: when a
    threshold component [t] exceeds 0.5 and the position component [c]
    satisfies both [c > 1 - t] and [c < t], the component on that axis is
    1, not -1.  ([i] is the axis, 0 or 1.) *)
Theorem normalize_position_far_edge_first ms h a th c0 c1 t0 t1 i c t :
  h !! a = Some [PFloat c0; PFloat c1] ->
  h !! th = Some [PFloat t0; PFloat t1] ->
  [c0; c1] !! i = Some c ->
  [t0; t1] !! i = Some t ->
  F64.ltb F64.half t = true ->
  F64.ltb (F64.sub F64.one t) c = true ->
  F64.ltb c t = true ->
  exists out o,
    result_of (normalize_position ms a (Some th)) h = Returns out /\
    out !! i = Some (PFloat o) /\
    o = F64.one /\ o <> F64.neg_one.
Proof.
  intros Ha Hth Hc Ht _ Hfar _.
  exists [PFloat (position_axis c0 t0); PFloat (position_axis c1 t1)],
         (position_axis c t).
  assert (Hax : position_axis c t = F64.one).
  { unfold position_axis. by rewrite Hfar. }
  split_and!.
  - eapply result_of_run. by eapply normalize_position_run.
  - by destruct i as [|[|i]]; simplify_eq/=.
  - done.
  - by rewrite Hax.
Qed.

(** Position (0.5, 0.5) under the threshold (0.75, 0.75): 0.5 > 0.25 and
    0.5 < 0.75 both hold on the y axis, and the component is 1. *)
Lemma normalize_position_far_edge_first_witness :
  exists out o,
    result_of (normalize_position ms0 3 (Some 4%positive))
      (heap2 (vec F64.half F64.half) (vec (F64.ratio 3 4) (F64.ratio 3 4)))
    = Returns out /\
    out !! 1%nat = Some (PFloat o) /\
    o = F64.one /\ o <> F64.neg_one.
Proof.
  apply (normalize_position_far_edge_first ms0
           (heap2 (vec F64.half F64.half) (vec (F64.ratio 3 4) (F64.ratio 3 4)))
           3 4 F64.half F64.half (F64.ratio 3 4) (F64.ratio 3 4)
           1%nat F64.half (F64.ratio 3 4));
    reflexivity.
Defined.

(** * Validation *)







(** * Mutation and the shared default *)

(** Loading the module into an empty heap gives the state used in the
    examples. *)
Lemma load_module_empty : load_module ∅ = (Returns ms0, heap_loaded).
Proof. reflexivity. Qed.

(** Loading the module builds the two defaults, both zero vectors. *)
Lemma load_module_defaults h :
  exists ms h',
    load_module h = (Returns ms, h') /\ h ⊆ h' /\ defaults_zero ms h'.
Proof.
  unfold load_module, Vec2. rewrite !bind_alloc.
  set (d1 := fresh (dom h)).
  set (h1 := <[d1 := [PFloat F64.zero; PFloat F64.zero]]> h).
  set (d2 := fresh (dom h1)).
  assert (Hd1 : h1 !! d1 = Some [PFloat F64.zero; PFloat F64.zero])
    by apply lookup_insert_eq.
  pose proof (fresh_loc_ne h1 d1 ltac:(eauto)) as N.
  eexists _, _. split; [reflexivity|]. split.
  - etrans; apply insert_subseteq, fresh_loc_None.
  - split; cbn; [by rewrite lookup_insert_ne | by rewrite lookup_insert_eq].
Qed.

(** C8: a call to [normalize_velocity] or [normalize_position], with any
    arguments and whether it returns or raises, leaves every object that
    existed before it as it was (its input, its threshold and the shared
    defaults among them), and what it returns is an object that did not
    exist before.  The defaults are zero vectors when the module has been
    loaded; after any sequence of calls they still are, and a call with the default threshold returns what a
    call with a zero vector built for the occasion returns. *)
Theorem normalize_no_mutation :
  (forall ms a th, builds_new (normalize_velocity ms a th)) /\
  (forall ms a th, builds_new (normalize_position ms a th)) /\
  (forall h, exists ms h',
      load_module h = (Returns ms, h') /\ h ⊆ h' /\ defaults_zero ms h') /\
  (forall ms cs h a,
      defaults_zero ms h -> is_Some (h !! a) ->
      defaults_zero ms (run_calls ms cs h) /\
      result_of (normalize_velocity ms a None) (run_calls ms cs h)
      = result_of (z <- Vec2 F64.zero F64.zero ;; normalize_velocity ms a (Some z))
          (run_calls ms cs h) /\
      result_of (normalize_position ms a None) (run_calls ms cs h)
      = result_of (z <- Vec2 F64.zero F64.zero ;; normalize_position ms a (Some z))
          (run_calls ms cs h)).
Proof.
  split_and!.
  - apply normalize_velocity_builds_new.
  - apply normalize_position_builds_new.
  - apply load_module_defaults.
  - intros ms cs h a Hd [A Ha].
    pose proof (run_calls_defaults ms cs h Hd) as [Hv Hp].
    assert (Ha' : is_Some (run_calls ms cs h !! a)).
    { exists A. eapply lookup_weaken; [done | apply run_calls_extends]. }
    split_and!.
    + by split.
    + by apply normalize_velocity_default_fresh.
    + by apply normalize_position_default_fresh.
Qed.

(** Three calls on the loaded module, the last two with the default. *)
Lemma normalize_no_mutation_witness :
  defaults_zero ms0
    (run_calls ms0 calls_example heap_example) /\
  result_of (normalize_velocity ms0 3 None)
    (run_calls ms0 calls_example heap_example)
  = result_of (z <- Vec2 F64.zero F64.zero ;; normalize_velocity ms0 3 (Some z))
      (run_calls ms0 calls_example heap_example) /\
  result_of (normalize_position ms0 3 None)
    (run_calls ms0 calls_example heap_example)
  = result_of (z <- Vec2 F64.zero F64.zero ;; normalize_position ms0 3 (Some z))
      (run_calls ms0 calls_example heap_example).
Proof.
  apply (proj2 (proj2 (proj2 normalize_no_mutation)) ms0).
  - split; reflexivity.
  - eexists. reflexivity.
Defined.

(** * More facts about the order of binary64 *)

Lemma compare_opp (x y : F64.t) :
  SFcompare (SFopp x) (SFopp y) = SFcompare y x.
Proof.
  destruct x as [sx|sx| |sx mx ex], y as [sy|sy| |sy my ey];
    try destruct sx; try destruct sy; try reflexivity.
  all: cbn; rewrite (Z.compare_antisym ex ey);
    destruct (ex ?= ey)%Z; cbn; try reflexivity;
    rewrite <- (Pos.compare_cont_antisym _ _ Eq); cbn; try reflexivity.
  all: by destruct (Pos.compare_cont Eq my mx).
Qed.

Lemma ltb_opp (x y : F64.t) : F64.ltb (F64.opp x) (F64.opp y) = F64.ltb y x.
Proof. unfold F64.ltb, F64.opp, SFltb. by rewrite compare_opp. Qed.

Lemma leb_opp (x y : F64.t) : F64.leb (F64.opp x) (F64.opp y) = F64.leb y x.
Proof. unfold F64.leb, F64.opp, SFleb. by rewrite compare_opp. Qed.

Lemma opp_involutive (x : F64.t) : F64.opp (F64.opp x) = x.
Proof. destruct x as [s|s| |s m e]; cbn; by rewrite ?negb_involutive. Qed.

(** Under a non-negative threshold the two tests exclude each other. *)
Lemma nonneg_threshold_exclusive (c t : F64.t) :
  F64.leb F64.zero t = true -> F64.ltb t c = true -> F64.ltb c (F64.opp t) = false.
Proof.
  destruct t as [s|s| |s m e]; try destruct s; try done;
    destruct c as [s'|s'| |s' m' e']; try destruct s'; done.
Qed.

Lemma above_nonneg_positive (c t : F64.t) :
  F64.leb F64.zero t = true -> F64.ltb t c = true -> F64.ltb F64.zero c = true.
Proof.
  destruct t as [s|s| |s m e]; try destruct s; try done;
    destruct c as [s'|s'| |s' m' e']; try destruct s'; done.
Qed.

Lemma below_nonpos_negative (c t : F64.t) :
  F64.leb F64.zero t = true -> F64.ltb c (F64.opp t) = true -> F64.ltb c F64.zero = true.
Proof.
  destruct t as [s|s| |s m e]; try destruct s; try done;
    destruct c as [s'|s'| |s' m' e']; try destruct s'; done.
Qed.

Lemma ltb_zero_signless (c : F64.t) s : F64.ltb c (S754_zero s) = F64.ltb c F64.zero.
Proof. destruct c as [s'|s'| |s' m' e']; try destruct s'; done. Qed.

(** The order is transitive. *)
Lemma compare_trans_lt_le (x y z : F64.t) :
  F64.ltb x y = true -> F64.leb y z = true -> F64.ltb x z = true.
Proof.
  unfold F64.ltb, F64.leb, SFltb, SFleb.
  destruct x as [sx|sx| |sx mx ex], y as [sy|sy| |sy my ey], z as [sz|sz| |sz mz ez];
    try destruct sx; try destruct sy; try destruct sz; try done.
  all: cbn; change (Pos.compare_cont Eq) with Pos.compare.
  all: destruct (Z.compare_spec ex ey), (Z.compare_spec ey ez), (Z.compare_spec ex ez);
    try done; try lia.
  all: destruct (Pos.compare_spec mx my), (Pos.compare_spec my mz), (Pos.compare_spec mx mz);
    cbn; try done; try lia.
Qed.

Lemma compare_trans_le_lt (x y z : F64.t) :
  F64.leb x y = true -> F64.ltb y z = true -> F64.ltb x z = true.
Proof.
  unfold F64.ltb, F64.leb, SFltb, SFleb.
  destruct x as [sx|sx| |sx mx ex], y as [sy|sy| |sy my ey], z as [sz|sz| |sz mz ez];
    try destruct sx; try destruct sy; try destruct sz; try done.
  all: cbn; change (Pos.compare_cont Eq) with Pos.compare.
  all: destruct (Z.compare_spec ex ey), (Z.compare_spec ey ez), (Z.compare_spec ex ez);
    try done; try lia.
  all: destruct (Pos.compare_spec mx my), (Pos.compare_spec my mz), (Pos.compare_spec mx mz);
    cbn; try done; try lia.
Qed.

(** What rounding returns carries the sign it was given. *)
Lemma binary_round_aux_sign prec emax s m e l :
  F64.is_nan (binary_round_aux prec emax s m e l) = true \/
  (exists m' e', binary_round_aux prec emax s m e l = S754_finite s m' e') \/
  binary_round_aux prec emax s m e l = S754_zero s \/
  binary_round_aux prec emax s m e l = S754_infinity s.
Proof.
  unfold binary_round_aux.
  destruct (shr_fexp prec emax m e l) as [mrs' e'].
  destruct (shr_fexp prec emax _ e' loc_Exact) as [mrs'' e''].
  destruct (shr_m mrs''); [auto | | auto].
  destruct (e'' <=? emax - prec)%Z; eauto.
Qed.

(** Dividing by a positive number keeps the strict sign of the numerator. *)
Lemma div_positive_inv (x d : F64.t) :
  F64.ltb F64.zero d = true ->
  F64.ltb F64.zero (F64.div x d) = true -> F64.ltb F64.zero x = true.
Proof.
  destruct d as [sd|sd| |sd md ed]; try destruct sd; try done;
    destruct x as [sx|sx| |sx mx ex]; try destruct sx; try done.
  intros _. unfold F64.div, SFdiv.
  destruct (SFdiv_core_binary _ _ _ _ _ _) as [[mz ez] lz]. cbn [xorb].
  by destruct (binary_round_aux_sign F64.prec F64.emax true mz ez lz)
    as [H|[(m' & e' & ->)|[-> | ->]]]; [destruct (binary_round_aux _ _ _ _ _ _)|..].
Qed.

Lemma div_negative_inv (x d : F64.t) :
  F64.ltb F64.zero d = true ->
  F64.ltb (F64.div x d) F64.zero = true -> F64.ltb x F64.zero = true.
Proof.
  destruct d as [sd|sd| |sd md ed]; try destruct sd; try done;
    destruct x as [sx|sx| |sx mx ex]; try destruct sx; try done.
  intros _. unfold F64.div, SFdiv.
  destruct (SFdiv_core_binary _ _ _ _ _ _) as [[mz ez] lz]. cbn [xorb].
  by destruct (binary_round_aux_sign F64.prec F64.emax false mz ez lz)
    as [H|[(m' & e' & ->)|[-> | ->]]]; [destruct (binary_round_aux _ _ _ _ _ _)|..].
Qed.

Lemma positive_not_zero (d : F64.t) :
  F64.ltb F64.zero d = true -> F64.eqb d F64.zero = false.
Proof. destruct d as [s|s| |s m e]; try destruct s; done. Qed.

(** A finite number minus itself is [+0]. *)
Lemma sub_diag (x : F64.t) :
  finite_number x = true -> F64.sub x x = S754_zero false.
Proof.
  destruct x as [s|s| |s m e]; try done; intros _.
  - by destruct s.
  - unfold F64.sub, SFsub. by rewrite Z.sub_diag.
Qed.

(** Zero divided by anything but zero and NaN compares equal to zero. *)
Lemma div_zero_numerator s (d : F64.t) :
  F64.is_nan d = false -> F64.eqb d F64.zero = false ->
  F64.eqb (F64.div (S754_zero s) d) F64.zero = true.
Proof. destruct d as [sd|sd| |sd md ed]; try destruct sd; done. Qed.

(** ** The per-axis values *)

Lemma velocity_axis_zero_threshold c :
  sign_of c (velocity_axis c F64.zero).
Proof.
  unfold sign_of, velocity_axis.
  change (F64.opp F64.zero) with (S754_zero true). rewrite ltb_zero_signless.
  split_and!.
  - by intros ->.
  - intros Hneg. assert (F64.ltb F64.zero c = false) as ->; [|by rewrite Hneg].
    apply leb_not_gt. revert Hneg. unfold F64.ltb, F64.leb, SFltb, SFleb.
    by destruct (SFcompare c F64.zero) as [[]|].
  - by intros -> ->.
Qed.

Lemma position_axis_in_frame c :
  F64.leb F64.zero c = true -> F64.leb c F64.one = true ->
  position_axis c F64.zero = F64.zero.
Proof.
  intros H0%leb_not_gt H1%leb_not_gt. unfold position_axis.
  change (F64.sub F64.one F64.zero) with F64.one. by rewrite H1, H0.
Qed.

Lemma velocity_axis_odd c t :
  F64.leb F64.zero t = true ->
  F64.eqb (velocity_axis (F64.opp c) t) (F64.opp (velocity_axis c t)) = true.
Proof.
  intros Ht. unfold velocity_axis.
  rewrite ltb_opp.
  rewrite <- (opp_involutive t) at 1. rewrite ltb_opp.
  destruct (F64.ltb t c) eqn:Hgt.
  - by rewrite (nonneg_threshold_exclusive c t Ht Hgt).
  - by destruct (F64.ltb c (F64.opp t)).
Qed.

Lemma velocity_axis_idempotent c t :
  F64.leb F64.zero t = true -> F64.ltb t F64.one = true ->
  velocity_axis (velocity_axis c t) t = velocity_axis c t.
Proof.
  intros Ht0 Ht1.
  destruct (ternary_velocity_axis c t) as [-> | [-> | ->]]; unfold velocity_axis.
  - change F64.neg_one with (F64.opp F64.one). rewrite ltb_opp, Ht1.
    assert (F64.ltb t (F64.opp F64.one) = false) as ->; [|done].
    revert Ht0. clear. destruct t as [s|s| |s m e]; try destruct s; done.
  - rewrite (leb_not_gt _ _ Ht0).
    assert (F64.ltb F64.zero (F64.opp t) = false) as ->; [|done].
    revert Ht0. clear. destruct t as [s|s| |s m e]; try destruct s; done.
  - by rewrite Ht1.
Qed.

Lemma velocity_axis_monotone c t t' :
  F64.leb F64.zero t = true -> F64.leb t t' = true ->
  (velocity_axis c t' = F64.one -> velocity_axis c t = F64.one) /\
  (velocity_axis c t' = F64.neg_one -> velocity_axis c t = F64.neg_one).
Proof.
  intros Ht Hle. unfold velocity_axis. split.
  - destruct (F64.ltb t' c) eqn:Hgt; [|by destruct (F64.ltb c (F64.opp t'))].
    intros _. by rewrite (compare_trans_le_lt t t' c Hle Hgt).
  - destruct (F64.ltb t' c) eqn:Hgt; [done|].
    destruct (F64.ltb c (F64.opp t')) eqn:Hlt; [|done]. intros _.
    assert (Hlt' : F64.ltb c (F64.opp t) = true).
    { apply (compare_trans_lt_le c (F64.opp t') (F64.opp t)); [done|].
      by rewrite leb_opp. }
    destruct (F64.ltb t c) eqn:Hgt'; [|by rewrite Hlt'].
    by rewrite (nonneg_threshold_exclusive c t Ht Hgt') in Hlt'.
Qed.

Lemma velocity_axis_direction c t :
  F64.leb F64.zero t = true ->
  (velocity_axis c t = F64.one -> F64.ltb F64.zero c = true) /\
  (velocity_axis c t = F64.neg_one -> F64.ltb c F64.zero = true).
Proof.
  intros Ht. unfold velocity_axis. split.
  - destruct (F64.ltb t c) eqn:Hgt; [|by destruct (F64.ltb c (F64.opp t))].
    intros _. by apply (above_nonneg_positive c t).
  - destruct (F64.ltb t c) eqn:Hgt; [done|].
    destruct (F64.ltb c (F64.opp t)) eqn:Hlt; [|done].
    intros _. by apply (below_nonpos_negative c t).
Qed.

(** * Running one call after another *)

Lemma result_of_bind_run (m : M loc) (k : loc -> M loc) h r h1 :
  m h = (Returns r, h1) -> result_of (bind m k) h = result_of (k r) h1.
Proof. intros E. unfold result_of, bind. by rewrite E. Qed.

(** * The default thresholds *)

(** X1: with the default threshold [normalize_velocity] is the sign of
    each component: 1 for a positive component, -1 for a negative one, 0
    for a zero of either sign (and for NaN). *)
Theorem normalize_velocity_default_sign ms h a c0 c1 :
  defaults_zero ms h ->
  h !! a = Some [PFloat c0; PFloat c1] ->
  exists o0 o1,
    result_of (normalize_velocity ms a None) h = Returns [PFloat o0; PFloat o1] /\
    sign_of c0 o0 /\ sign_of c1 o1.
Proof.
  intros [Hd _] Ha. rewrite normalize_velocity_default_eq.
  exists (velocity_axis c0 F64.zero), (velocity_axis c1 F64.zero). split_and!.
  - eapply result_of_run. by apply normalize_velocity_run.
  - apply velocity_axis_zero_threshold.
  - apply velocity_axis_zero_threshold.
Qed.

Lemma normalize_velocity_default_sign_witness :
  exists o0 o1,
    result_of (normalize_velocity ms0 3 None) heap_example
    = Returns [PFloat o0; PFloat o1] /\
    sign_of (F64.of_Z 5) o0 /\ sign_of (F64.of_Z (-3)) o1.
Proof.
  apply (normalize_velocity_default_sign ms0 heap_example 3
           (F64.of_Z 5) (F64.of_Z (-3))).
  - split; reflexivity.
  - reflexivity.
Defined.

(** X2: with the default threshold [normalize_position] reports every
    position inside the frame, the edges 0 and 1 included, as interior:
    the result is (0, 0). *)
Theorem normalize_position_default_in_frame ms h a c0 c1 :
  defaults_zero ms h ->
  h !! a = Some [PFloat c0; PFloat c1] ->
  F64.leb F64.zero c0 = true -> F64.leb c0 F64.one = true ->
  F64.leb F64.zero c1 = true -> F64.leb c1 F64.one = true ->
  result_of (normalize_position ms a None) h
  = Returns [PFloat F64.zero; PFloat F64.zero].
Proof.
  intros [_ Hd] Ha H0 H0' H1 H1'. rewrite normalize_position_default_eq.
  rewrite (result_of_run _ _ _ _ _
             (normalize_position_run ms h _ _ _ _ _ _ _ _ Ha Hd)).
  by rewrite !position_axis_in_frame.
Qed.

(** The corner (1, 0) of the frame. *)
Lemma normalize_position_default_in_frame_witness :
  result_of (normalize_position ms0 3 None)
    (heap2 (vec F64.one F64.zero) (vec F64.half F64.half))
  = Returns [PFloat F64.zero; PFloat F64.zero].
Proof.
  apply (normalize_position_default_in_frame ms0
           (heap2 (vec F64.one F64.zero) (vec F64.half F64.half))
           3 F64.one F64.zero);
    try reflexivity.
  split; reflexivity.
Defined.

(** * Symmetries of the velocity quantizer *)

(** X3: under a threshold with no negative component, reversing the
    velocity reverses the direction: [normalize_velocity(-v, t)] equals
    [-normalize_velocity(v, t)]. *)
Theorem normalize_velocity_odd ms h a a' th c0 c1 t0 t1 :
  h !! a = Some [PFloat c0; PFloat c1] ->
  h !! a' = Some [PFloat (F64.opp c0); PFloat (F64.opp c1)] ->
  h !! th = Some [PFloat t0; PFloat t1] ->
  F64.leb F64.zero t0 = true ->
  F64.leb F64.zero t1 = true ->
  exists out out' nout,
    result_of (normalize_velocity ms a (Some th)) h = Returns out /\
    result_of (normalize_velocity ms a' (Some th)) h = Returns out' /\
    np_negative out = Returns nout /\
    array_equal out' nout = true.
Proof.
  intros Ha Ha' Hth Ht0 Ht1.
  eexists _, _, _. split_and!.
  - eapply result_of_run. by apply normalize_velocity_run.
  - eapply result_of_run. by apply normalize_velocity_run.
  - reflexivity.
  - cbn. by rewrite !velocity_axis_odd.
Qed.

Lemma normalize_velocity_odd_witness :
  exists out out' nout,
    result_of (normalize_velocity ms0 3 (Some 5%positive))
      (heap3 (vec (F64.of_Z 5) (F64.of_Z (-3))) (vec (F64.of_Z (-5)) (F64.of_Z 3))
             (vec (F64.of_Z 2) (F64.of_Z 2))) = Returns out /\
    result_of (normalize_velocity ms0 4 (Some 5%positive))
      (heap3 (vec (F64.of_Z 5) (F64.of_Z (-3))) (vec (F64.of_Z (-5)) (F64.of_Z 3))
             (vec (F64.of_Z 2) (F64.of_Z 2))) = Returns out' /\
    np_negative out = Returns nout /\
    array_equal out' nout = true.
Proof.
  apply (normalize_velocity_odd ms0
           (heap3 (vec (F64.of_Z 5) (F64.of_Z (-3))) (vec (F64.of_Z (-5)) (F64.of_Z 3))
                  (vec (F64.of_Z 2) (F64.of_Z 2)))
           3 4 5 (F64.of_Z 5) (F64.of_Z (-3)) (F64.of_Z 2) (F64.of_Z 2));
    reflexivity.
Defined.

(** X4: under a threshold whose components lie in [0, 1), quantizing a
    quantized velocity changes nothing: [normalize_velocity] applied to
    its own result returns the same vector. *)
Theorem normalize_velocity_idempotent ms h a th c0 c1 t0 t1 :
  h !! a = Some [PFloat c0; PFloat c1] ->
  h !! th = Some [PFloat t0; PFloat t1] ->
  F64.leb F64.zero t0 = true -> F64.ltb t0 F64.one = true ->
  F64.leb F64.zero t1 = true -> F64.ltb t1 F64.one = true ->
  result_of (r <- normalize_velocity ms a (Some th) ;;
             normalize_velocity ms r (Some th)) h
  = result_of (normalize_velocity ms a (Some th)) h.
Proof.
  intros Ha Hth H0 H0' H1 H1'.
  pose proof (fresh_loc_ne h th ltac:(eauto)) as Nth.
  rewrite (result_of_bind_run _ _ _ _ _ (normalize_velocity_run ms h _ _ _ _ _ _ Ha Hth)).
  rewrite (result_of_run _ _ _ _ _ (normalize_velocity_run ms h _ _ _ _ _ _ Ha Hth)).
  erewrite result_of_run.
  2: { apply normalize_velocity_run; [apply lookup_insert_eq|].
       by rewrite lookup_insert_ne. }
  by rewrite !velocity_axis_idempotent.
Qed.

Lemma normalize_velocity_idempotent_witness :
  result_of (r <- normalize_velocity ms0 3 (Some 4%positive) ;;
             normalize_velocity ms0 r (Some 4%positive))
    (heap2 (vec (F64.of_Z 5) (F64.of_Z (-3))) (vec F64.half F64.half))
  = result_of (normalize_velocity ms0 3 (Some 4%positive))
      (heap2 (vec (F64.of_Z 5) (F64.of_Z (-3))) (vec F64.half F64.half)).
Proof.
  apply (normalize_velocity_idempotent ms0
           (heap2 (vec (F64.of_Z 5) (F64.of_Z (-3))) (vec F64.half F64.half))
           3 4 (F64.of_Z 5) (F64.of_Z (-3)) F64.half F64.half);
    reflexivity.
Defined.

(** X5: raising a threshold only silences a direction: for thresholds
    [0 <= t <= t'] per axis, a component that is 1 (or -1) under [t'] is
    1 (or -1) under [t] as well. *)
Theorem normalize_velocity_threshold_monotone ms h a th th' c0 c1 t0 t1 t0' t1' :
  h !! a = Some [PFloat c0; PFloat c1] ->
  h !! th = Some [PFloat t0; PFloat t1] ->
  h !! th' = Some [PFloat t0'; PFloat t1'] ->
  F64.leb F64.zero t0 = true -> F64.leb t0 t0' = true ->
  F64.leb F64.zero t1 = true -> F64.leb t1 t1' = true ->
  exists o0 o1 o0' o1',
    result_of (normalize_velocity ms a (Some th)) h = Returns [PFloat o0; PFloat o1] /\
    result_of (normalize_velocity ms a (Some th')) h = Returns [PFloat o0'; PFloat o1'] /\
    (o0' = F64.one -> o0 = F64.one) /\ (o0' = F64.neg_one -> o0 = F64.neg_one) /\
    (o1' = F64.one -> o1 = F64.one) /\ (o1' = F64.neg_one -> o1 = F64.neg_one).
Proof.
  intros Ha Hth Hth' H0 H0' H1 H1'.
  exists (velocity_axis c0 t0), (velocity_axis c1 t1),
         (velocity_axis c0 t0'), (velocity_axis c1 t1').
  destruct (velocity_axis_monotone c0 t0 t0' H0 H0').
  destruct (velocity_axis_monotone c1 t1 t1' H1 H1').
  split_and!; try done.
  - eapply result_of_run. by apply normalize_velocity_run.
  - eapply result_of_run. by apply normalize_velocity_run.
Qed.

(** Velocity (5, -3) under the thresholds (2, 2) and (4, 4). *)
Lemma normalize_velocity_threshold_monotone_witness :
  exists o0 o1 o0' o1',
    result_of (normalize_velocity ms0 3 (Some 4%positive))
      (heap3 (vec (F64.of_Z 5) (F64.of_Z (-3))) (vec (F64.of_Z 2) (F64.of_Z 2))
             (vec (F64.of_Z 4) (F64.of_Z 4)))
    = Returns [PFloat o0; PFloat o1] /\
    result_of (normalize_velocity ms0 3 (Some 5%positive))
      (heap3 (vec (F64.of_Z 5) (F64.of_Z (-3))) (vec (F64.of_Z 2) (F64.of_Z 2))
             (vec (F64.of_Z 4) (F64.of_Z 4)))
    = Returns [PFloat o0'; PFloat o1'] /\
    (o0' = F64.one -> o0 = F64.one) /\ (o0' = F64.neg_one -> o0 = F64.neg_one) /\
    (o1' = F64.one -> o1 = F64.one) /\ (o1' = F64.neg_one -> o1 = F64.neg_one).
Proof.
  apply (normalize_velocity_threshold_monotone ms0
           (heap3 (vec (F64.of_Z 5) (F64.of_Z (-3))) (vec (F64.of_Z 2) (F64.of_Z 2))
                  (vec (F64.of_Z 4) (F64.of_Z 4)))
           3 4 5 (F64.of_Z 5) (F64.of_Z (-3)) (F64.of_Z 2) (F64.of_Z 2)
           (F64.of_Z 4) (F64.of_Z 4));
    reflexivity.
Defined.

(** * More on the velocity between two events *)

(** Equal finite numbers have a zero difference. *)
Lemma sub_equal_zero (x y : F64.t) :
  finite_number x = true -> finite_number y = true ->
  F64.eqb x y = true -> F64.eqb (F64.sub y x) F64.zero = true.
Proof.
  destruct x as [sx|sx| |sx mx ex], y as [sy|sy| |sy my ey]; try done.
  - intros _ _ _. by destruct sx, sy.
  - by destruct sy.
  - by destruct sx.
  - intros _ _. unfold F64.eqb, SFeqb, SFcompare.
    destruct sx, sy; try done.
    all: destruct (Z.compare_spec ex ey) as [->| |]; try done.
    all: change (Pos.compare_cont Eq mx my) with (Pos.compare mx my).
    all: destruct (Pos.compare_spec mx my) as [->| |]; try done.
    all: intros _; unfold F64.sub, SFsub; by rewrite Z.sub_diag.
Qed.

Lemma map_outcome_sub_floats (ys xs : list F64.t) :
  map_outcome (fun p => py_sub (fst p) (snd p)) (zip (floats ys) (floats xs))
  = Returns (floats (zip_with F64.sub ys xs)).
Proof.
  revert xs. induction ys as [|y ys IH]; intros [|x xs]; try done.
  cbn. unfold floats in IH. by rewrite IH.
Qed.

Lemma np_subtract_floats (ys xs : list F64.t) :
  length ys = length xs ->
  np_subtract (floats ys) (floats xs) = Returns (floats (zip_with F64.sub ys xs)).
Proof.
  intros Hlen. unfold np_subtract, broadcast.
  rewrite decide_True by (unfold floats; by rewrite !length_fmap).
  apply map_outcome_sub_floats.
Qed.

Lemma np_divide_floats (xs : list F64.t) (d : F64.t) :
  np_divide_scalar (floats xs) d = Returns (floats ((fun x => F64.div x d) <$> xs)).
Proof.
  unfold np_divide_scalar. induction xs as [|x xs IH]; [done|].
  cbn. unfold floats in IH. by rewrite IH.
Qed.

Lemma fmap_zip_with_sub (d : F64.t) (ys xs : list F64.t) :
  (fun x => F64.div x d) <$> zip_with F64.sub ys xs
  = zip_with (fun y x => F64.div (F64.sub y x) d) ys xs.
Proof.
  revert xs. induction ys as [|y ys IH]; intros [|x xs]; try done.
  cbn. by rewrite IH.
Qed.

(** X6: read off [get_velocity]: it checks no shape.  For two positions
    of the same length, of any length, whose components are numbers, and a
    non-zero timestamp difference, it returns the quotient
    [(b_i - a_i) / (b.timestamp - a.timestamp)] for every index [i]. *)
Theorem get_velocity_any_dimension h a b (xs ys : list F64.t) :
  h !! position a = Some (floats xs) ->
  h !! position b = Some (floats ys) ->
  length xs = length ys ->
  F64.eqb (F64.sub (timestamp b) (timestamp a)) F64.zero = false ->
  result_of (get_velocity a b) h =
    Returns (floats (zip_with
       (fun y x => F64.div (F64.sub y x) (F64.sub (timestamp b) (timestamp a)))
       ys xs)).
Proof.
  intros Ha Hb Hlen Hdt.
  eapply result_of_run. unfold get_velocity. rewrite Hdt.
  rewrite (bind_returns _ _ _ _ _ (deref_run _ _ _ Hb)).
  rewrite (bind_returns _ _ _ _ _ (deref_run _ _ _ Ha)).
  rewrite np_subtract_floats by done. rewrite bind_lift_returns.
  rewrite np_divide_floats, bind_lift_returns.
  rewrite fmap_zip_with_sub. reflexivity.
Qed.

(** Three-dimensional positions: from (1, 2, 3) to (4, 8, 12) in 3 ms. *)
Lemma get_velocity_any_dimension_witness :
  result_of (get_velocity (event 3 (F64.of_Z 10)) (event 4 (F64.of_Z 13)))
    (heap2 (floats [F64.of_Z 1; F64.of_Z 2; F64.of_Z 3])
           (floats [F64.of_Z 4; F64.of_Z 8; F64.of_Z 12]))
  = Returns (floats [F64.of_Z 1; F64.of_Z 2; F64.of_Z 3]).
Proof.
  apply (get_velocity_any_dimension
           (heap2 (floats [F64.of_Z 1; F64.of_Z 2; F64.of_Z 3])
                  (floats [F64.of_Z 4; F64.of_Z 8; F64.of_Z 12]))
           (event 3 (F64.of_Z 10)) (event 4 (F64.of_Z 13))
           [F64.of_Z 1; F64.of_Z 2; F64.of_Z 3]
           [F64.of_Z 4; F64.of_Z 8; F64.of_Z 12]);
    reflexivity.
Defined.

(** X7: [get_velocity] changes no object that existed before the call,
    whether it takes the guard, computes the quotient or raises, and the
    vector it returns is an object that did not exist before. *)
Theorem get_velocity_no_mutation a b h :
  h ⊆ heap_after (get_velocity a b) h /\
  forall r, fst (get_velocity a b h) = Returns r ->
    h !! r = None /\ is_Some (heap_after (get_velocity a b) h !! r).
Proof.
  pose proof (get_velocity_builds_new a b h) as [Hsub Hnew].
  split; [exact Hsub|]. intros r Hr. by apply Hnew.
Qed.

(** X8: an object that has not moved has velocity zero: when both events
    hold the same finite position and the timestamp difference is neither
    zero nor NaN, each component of [get_velocity] compares equal to 0. *)
Theorem get_velocity_same_position h a b p q :
  h !! position a = Some [PFloat p; PFloat q] ->
  h !! position b = Some [PFloat p; PFloat q] ->
  finite_number p = true -> finite_number q = true ->
  F64.eqb (F64.sub (timestamp b) (timestamp a)) F64.zero = false ->
  F64.is_nan (F64.sub (timestamp b) (timestamp a)) = false ->
  exists u0 u1,
    result_of (get_velocity a b) h = Returns [PFloat u0; PFloat u1] /\
    F64.eqb u0 F64.zero = true /\ F64.eqb u1 F64.zero = true.
Proof.
  intros Ha Hb Hp Hq Hdt Hnan. eexists _, _. split_and!.
  - eapply result_of_run. by apply get_velocity_run.
  - rewrite (sub_diag p Hp). by apply div_zero_numerator.
  - rewrite (sub_diag q Hq). by apply div_zero_numerator.
Qed.

Lemma get_velocity_same_position_witness :
  exists u0 u1,
    result_of (get_velocity (event 3 (F64.of_Z 10)) (event 4 (F64.of_Z 13)))
      (heap2 (vec (F64.of_Z 4) (F64.of_Z 8)) (vec (F64.of_Z 4) (F64.of_Z 8)))
    = Returns [PFloat u0; PFloat u1] /\
    F64.eqb u0 F64.zero = true /\ F64.eqb u1 F64.zero = true.
Proof.
  apply (get_velocity_same_position
           (heap2 (vec (F64.of_Z 4) (F64.of_Z 8)) (vec (F64.of_Z 4) (F64.of_Z 8)))
           (event 3 (F64.of_Z 10)) (event 4 (F64.of_Z 13))
           (F64.of_Z 4) (F64.of_Z 8));
    reflexivity.
Defined.

(** * From two events to a direction *)

(** X9: the direction computed from two events never contradicts the
    displacement.  When [b] is later than [a] and the threshold has no
    negative component, [normalize_velocity(get_velocity(a, b), t)] is 1
    on an axis only if [b.position - a.position] is positive there, and
    -1 only if it is negative there. *)
Theorem direction_follows_displacement ms h a b th ax ay bx by_ t0 t1 :
  h !! position a = Some [PFloat ax; PFloat ay] ->
  h !! position b = Some [PFloat bx; PFloat by_] ->
  h !! th = Some [PFloat t0; PFloat t1] ->
  F64.ltb F64.zero (F64.sub (timestamp b) (timestamp a)) = true ->
  F64.leb F64.zero t0 = true ->
  F64.leb F64.zero t1 = true ->
  exists o0 o1,
    result_of (v <- get_velocity a b ;; normalize_velocity ms v (Some th)) h
    = Returns [PFloat o0; PFloat o1] /\
    (o0 = F64.one -> F64.ltb F64.zero (F64.sub bx ax) = true) /\
    (o0 = F64.neg_one -> F64.ltb (F64.sub bx ax) F64.zero = true) /\
    (o1 = F64.one -> F64.ltb F64.zero (F64.sub by_ ay) = true) /\
    (o1 = F64.neg_one -> F64.ltb (F64.sub by_ ay) F64.zero = true).
Proof.
  intros Ha Hb Hth Hd Ht0 Ht1.
  pose proof (fresh_loc_ne h th ltac:(eauto)) as Nth.
  set (d := F64.sub (timestamp b) (timestamp a)) in *.
  pose proof (positive_not_zero d Hd) as Hdt.
  destruct (velocity_axis_direction (F64.div (F64.sub bx ax) d) t0 Ht0) as [Hx1 Hx2].
  destruct (velocity_axis_direction (F64.div (F64.sub by_ ay) d) t1 Ht1) as [Hy1 Hy2].
  eexists _, _. split_and!.
  - rewrite (result_of_bind_run _ _ _ _ _ (get_velocity_run h a b _ _ _ _ Ha Hb Hdt)).
    eapply result_of_run.
    apply normalize_velocity_run; [apply lookup_insert_eq|].
    by rewrite lookup_insert_ne.
  - intros H%Hx1. by apply (div_positive_inv _ d).
  - intros H%Hx2. by apply (div_negative_inv _ d).
  - intros H%Hy1. by apply (div_positive_inv _ d).
  - intros H%Hy2. by apply (div_negative_inv _ d).
Qed.

(** From (1, 8) at 10 ms to (4, 2) at 13 ms: right and up. *)
Lemma direction_follows_displacement_witness :
  exists o0 o1,
    result_of (v <- get_velocity (event 3 (F64.of_Z 10)) (event 4 (F64.of_Z 13)) ;;
               normalize_velocity ms0 v (Some 5%positive))
      (heap3 (vec (F64.of_Z 1) (F64.of_Z 8)) (vec (F64.of_Z 4) (F64.of_Z 2))
             (vec F64.half F64.half))
    = Returns [PFloat o0; PFloat o1] /\
    (o0 = F64.one -> F64.ltb F64.zero (F64.sub (F64.of_Z 4) (F64.of_Z 1)) = true) /\
    (o0 = F64.neg_one -> F64.ltb (F64.sub (F64.of_Z 4) (F64.of_Z 1)) F64.zero = true) /\
    (o1 = F64.one -> F64.ltb F64.zero (F64.sub (F64.of_Z 2) (F64.of_Z 8)) = true) /\
    (o1 = F64.neg_one -> F64.ltb (F64.sub (F64.of_Z 2) (F64.of_Z 8)) F64.zero = true).
Proof.
  apply (direction_follows_displacement ms0
           (heap3 (vec (F64.of_Z 1) (F64.of_Z 8)) (vec (F64.of_Z 4) (F64.of_Z 2))
                  (vec F64.half F64.half))
           (event 3 (F64.of_Z 10)) (event 4 (F64.of_Z 13)) 5
           (F64.of_Z 1) (F64.of_Z 8) (F64.of_Z 4) (F64.of_Z 2) F64.half F64.half);
    reflexivity.
Defined.

(** * Exceptions of the position quantizer *)

(** X10: under a well-formed threshold, [normalize_position] raises
    [IndexError] for a position of numbers with fewer than two
    components, the empty one included, and [TypeError] when the first
    component that is not a number comes at index 0 or 1. *)
Theorem normalize_position_exceptions ms h a th A t0 t1 :
  h !! a = Some A ->
  h !! th = Some [PFloat t0; PFloat t1] ->
  (length A < 2 -> forallb is_number A = true ->
   result_of (normalize_position ms a (Some th)) h = Raises IndexError) /\
  (A !! 0 = Some PNone \/ (exists c, A !! 0 = Some (PFloat c)) /\ A !! 1 = Some PNone ->
   result_of (normalize_position ms a (Some th)) h = Raises TypeError).
Proof.
  intros Ha Hth.
  pose proof (fresh_loc_ne h a ltac:(eauto)) as Na.
  pose proof (fresh_loc_ne h th ltac:(eauto)) as Nth.
  split.
  - intros Hlen Hnum. destruct A as [|[c0|] [|c1 A]]; cbn in *; try done; try lia.
    all: run_result; reflexivity.
  - intros [H0|[[c H0] H1]].
    + destruct A as [|[c0|] A]; simplify_eq/=. run_result; reflexivity.
    + destruct A as [|[c0|] [|[c1|] A]]; simplify_eq/=. run_result; reflexivity.
Qed.

Lemma normalize_position_exceptions_witness :
  (length [PFloat F64.half] < 2 -> forallb is_number [PFloat F64.half] = true ->
   result_of (normalize_position ms0 3 (Some 4%positive))
     (heap2 [PFloat F64.half] (vec F64.zero F64.zero)) = Raises IndexError) /\
  ([PFloat F64.half] !! 0 = Some PNone \/
   (exists c, [PFloat F64.half] !! 0 = Some (PFloat c)) /\
   [PFloat F64.half] !! 1 = Some PNone ->
   result_of (normalize_position ms0 3 (Some 4%positive))
     (heap2 [PFloat F64.half] (vec F64.zero F64.zero)) = Raises TypeError).
Proof.
  apply (normalize_position_exceptions ms0
           (heap2 [PFloat F64.half] (vec F64.zero F64.zero))
           3 4 [PFloat F64.half] F64.zero F64.zero);
    reflexivity.
Defined.

(** * When the timestamp difference is zero *)

Section Underflow.
Variables prec emax : Z.
Hypothesis prec_pos : (0 < prec)%Z.

Local Abbreviation emin := (SpecFloat.emin prec emax).
Local Abbreviation fexp := (SpecFloat.fexp prec emax).

Lemma digits2_size p : digits2_pos p = Pos.size p.
Proof. induction p; cbn; congruence. Qed.

Lemma digits2_log2 p : Z.pos (digits2_pos p) = (Z.log2 (Z.pos p) + 1)%Z.
Proof. rewrite digits2_size. destruct p; cbn [Z.log2 Pos.size]; lia. Qed.

Lemma fexp_ge_emin e : (emin <= fexp e)%Z.
Proof. unfold SpecFloat.fexp. lia. Qed.

Lemma shr_1_m mrs : (0 <= shr_m mrs)%Z -> shr_m (shr_1 mrs) = Z.div2 (shr_m mrs).
Proof. destruct mrs as [[|[p|p|]|p] r s]; cbn; try done; lia. Qed.

Lemma iter_shr_1_m n mrs :
  (0 <= shr_m mrs)%Z ->
  shr_m (SpecFloat.iter_pos shr_1 n mrs) = Z.shiftr (shr_m mrs) (Z.pos n).
Proof.
  revert mrs. induction n as [n IH|n IH|]; intros mrs Hm; cbn [SpecFloat.iter_pos].
  - assert (H1 : (0 <= shr_m (shr_1 mrs))%Z).
    { rewrite shr_1_m by done. by apply Z.div2_nonneg. }
    assert (H2 : (0 <= shr_m (SpecFloat.iter_pos shr_1 n (shr_1 mrs)))%Z).
    { rewrite IH by done. by apply Z.shiftr_nonneg. }
    rewrite IH, IH, shr_1_m by done.
    rewrite Z.div2_spec, !Z.shiftr_shiftr by lia. f_equal. lia.
  - assert (H2 : (0 <= shr_m (SpecFloat.iter_pos shr_1 n mrs))%Z).
    { rewrite IH by done. by apply Z.shiftr_nonneg. }
    rewrite IH, IH by done. rewrite Z.shiftr_shiftr by lia. f_equal. lia.
  - rewrite shr_1_m by done. apply Z.div2_spec.
Qed.

Lemma shr_record_of_loc_m m l : shr_m (shr_record_of_loc m l) = m.
Proof. by destruct l as [|[]]. Qed.

(** Shifting a positive mantissa down to the format never empties it,
    when the exponent is at least [emin]. *)
Lemma shr_fexp_positive m e l :
  (0 < m)%Z -> (emin <= e)%Z ->
  (0 < shr_m (fst (shr_fexp prec emax m e l)))%Z /\
  (emin <= snd (shr_fexp prec emax m e l))%Z.
Proof.
  intros Hm He. unfold shr_fexp, shr.
  destruct m as [|p|p]; try lia. cbn [Zdigits2].
  destruct (fexp (Z.pos (digits2_pos p) + e) - e)%Z as [|n|n] eqn:En; cbn [fst snd];
    rewrite ?shr_record_of_loc_m; try (split; lia).
  split; [|lia].
  rewrite iter_shr_1_m by (rewrite shr_record_of_loc_m; lia).
  rewrite shr_record_of_loc_m.
  assert (Hn : (Z.pos n <= Z.log2 (Z.pos p))%Z).
  { rewrite digits2_log2 in En. unfold SpecFloat.fexp in En. lia. }
  pose proof (Z.shiftr_nonneg (Z.pos p) (Z.pos n)) as [_ Hnn].
  pose proof (Z.shiftr_eq_0_iff (Z.pos p) (Z.pos n)) as [H0 _].
  destruct (decide (Z.shiftr (Z.pos p) (Z.pos n) = 0%Z)) as [E|E]; [|lia].
  destruct (H0 E) as [?|[_ ?]]; lia.
Qed.

Lemma round_nearest_even_positive m l :
  (0 < m)%Z -> (0 < round_nearest_even m l)%Z.
Proof.
  intros Hm. destruct l as [|[]]; cbn; try lia.
  destruct (Z.even m); lia.
Qed.

Lemma binary_round_aux_nonzero s m e l :
  (0 < m)%Z -> (emin <= e)%Z ->
  SFeqb (binary_round_aux prec emax s m e l) (S754_zero false) = false.
Proof.
  intros Hm He. unfold binary_round_aux.
  pose proof (shr_fexp_positive m e l Hm He) as [H1 H1'].
  destruct (shr_fexp prec emax m e l) as [mrs' e']. cbn [fst snd] in *.
  pose proof (shr_fexp_positive _ e' loc_Exact
                (round_nearest_even_positive _ (loc_of_shr_record mrs') H1) H1')
    as [H2 _].
  destruct (shr_fexp prec emax _ e' loc_Exact) as [mrs'' e'']. cbn [fst] in *.
  destruct (shr_m mrs'') as [|p|p]; try lia.
  destruct (e'' <=? emax - prec)%Z; by destruct s.
Qed.

Lemma binary_round_nonzero s p e :
  (emin <= e)%Z ->
  SFeqb (binary_round prec emax s p e) (S754_zero false) = false.
Proof.
  intros He. unfold binary_round, shl_align.
  set (e' := fexp (Z.pos (digits2_pos p) + e)).
  pose proof (fexp_ge_emin (Z.pos (digits2_pos p) + e)) as He'. fold e' in He'.
  destruct (e' - e)%Z; by apply binary_round_aux_nonzero.
Qed.

Lemma binary_normalize_nonzero z e :
  z <> 0%Z -> (emin <= e)%Z ->
  SFeqb (binary_normalize prec emax z e false) (S754_zero false) = false.
Proof.
  intros Hz He. destruct z as [|p|p]; [done| |]; by apply binary_round_nonzero.
Qed.

Lemma iter_xO_value m d : Z.pos (Pos.iter xO m d) = (Z.pos m * 2 ^ Z.pos d)%Z.
Proof.
  induction d as [|d IH] using Pos.peano_ind.
  - cbn. lia.
  - rewrite Pos.iter_succ, Pos2Z.inj_xO, IH, Pos2Z.inj_succ, Z.pow_succ_r by lia. lia.
Qed.

Lemma shl_align_value m e ez :
  (ez <= e)%Z -> Z.pos (fst (shl_align m e ez)) = (Z.pos m * 2 ^ (e - ez))%Z.
Proof.
  intros Hle. unfold shl_align.
  destruct (ez - e)%Z as [|d|d] eqn:Ed; cbn [fst]; try lia.
  - replace (e - ez)%Z with 0%Z by lia. lia.
  - rewrite iter_xO_value. f_equal. f_equal. lia.
Qed.

Lemma canonical_exponent m e :
  canonical_mantissa prec emax m e = true ->
  e = fexp (Z.log2 (Z.pos m) + 1 + e) /\ (emin <= e)%Z.
Proof.
  unfold canonical_mantissa. rewrite digits2_log2. intros H%Z.eqb_eq.
  split; [done|]. rewrite <- H. apply fexp_ge_emin.
Qed.

(** Two canonical mantissas that agree once aligned are the same. *)
Lemma aligned_canonical_eq mx ex my ey :
  canonical_mantissa prec emax mx ex = true ->
  canonical_mantissa prec emax my ey = true ->
  fst (shl_align my ey (Z.min ey ex)) = fst (shl_align mx ex (Z.min ey ex)) ->
  ex = ey /\ mx = my.
Proof.
  intros [Hx _]%canonical_exponent [Hy _]%canonical_exponent Heq.
  apply (f_equal Z.pos) in Heq. rewrite !shl_align_value in Heq by lia.
  assert (Hlog : (Z.log2 (Z.pos my) + ey = Z.log2 (Z.pos mx) + ex)%Z).
  { apply (f_equal Z.log2) in Heq.
    rewrite !Z.log2_mul_pow2 in Heq by lia. lia. }
  assert (Hex : ex = ey).
  { rewrite Hx, Hy. f_equal. lia. }
  split; [done|]. subst ey.
  apply Z.mul_cancel_r in Heq; [congruence|].
  apply Z.pow_nonzero; lia.
Qed.

(** For finite numbers of the format, the difference is zero only when
    the two numbers compare equal. *)
Lemma SFsub_zero_inv x y :
  valid_binary prec emax x = true -> valid_binary prec emax y = true ->
  SFeqb (SFsub prec emax y x) (S754_zero false) = true ->
  SFeqb x y = true.
Proof.
  destruct x as [sx|sx| |sx mx ex], y as [sy|sy| |sy my ey];
    try done; try (by destruct sx); try (by destruct sy); try (by destruct sx, sy).
  cbn [valid_binary]. unfold bounded.
  intros [Cx _]%andb_prop [Cy _]%andb_prop.
  pose proof (canonical_exponent _ _ Cx) as [_ Hex].
  pose proof (canonical_exponent _ _ Cy) as [_ Hey].
  cbn [SFsub].
  set (Ay := cond_Zopp sy _). set (Ax := cond_Zopp sx _).
  destruct (decide (Ay - Ax = 0)%Z) as [E|E].
  - intros _.
    assert (sx = sy /\ fst (shl_align my ey (Z.min ey ex)) = fst (shl_align mx ex (Z.min ey ex)))
      as [-> Hal].
    { subst Ay Ax. destruct sx, sy; cbn in E; first [lia | split; [done|]; lia]. }
    destruct (aligned_canonical_eq _ _ _ _ Cx Cy Hal) as [-> ->].
    unfold SFeqb, SFcompare. rewrite Z.compare_refl.
    change (Pos.compare_cont Eq my my) with (Pos.compare my my).
    rewrite Pos.compare_refl. by destruct sy.
  - rewrite binary_normalize_nonzero by lia. done.
Qed.

End Underflow.

Lemma sub_zero_iff (x y : F64.t) :
  binary64 x = true -> binary64 y = true ->
  F64.eqb (F64.sub y x) F64.zero = F64.eqb x y.
Proof.
  unfold binary64. intros [Fx Vx]%andb_prop [Fy Vy]%andb_prop.
  destruct (F64.eqb x y) eqn:E.
  - by apply sub_equal_zero.
  - destruct (F64.eqb (F64.sub y x) F64.zero) eqn:E'; [|done].
    rewrite <- E. symmetry.
    apply (SFsub_zero_inv F64.prec F64.emax); [done | done | done | exact E'].
Qed.

(** X11: for finite timestamps the guard of [get_velocity] is taken
    exactly when the two timestamps are equal: the result is the zero
    vector for equal timestamps and the per-axis quotient for distinct
    ones (rounding never turns the difference of two distinct doubles
    into zero). *)
Theorem get_velocity_by_timestamps h a b ax ay bx by_ :
  h !! position a = Some [PFloat ax; PFloat ay] ->
  h !! position b = Some [PFloat bx; PFloat by_] ->
  binary64 (timestamp a) = true ->
  binary64 (timestamp b) = true ->
  result_of (get_velocity a b) h =
    Returns
      (if F64.eqb (timestamp a) (timestamp b)
       then [PFloat F64.zero; PFloat F64.zero]
       else
         [PFloat (F64.div (F64.sub bx ax) (F64.sub (timestamp b) (timestamp a)));
          PFloat (F64.div (F64.sub by_ ay) (F64.sub (timestamp b) (timestamp a)))]).
Proof.
  intros Ha Hb Hta Htb.
  pose proof (sub_zero_iff _ _ Hta Htb) as Hguard.
  destruct (F64.eqb (timestamp a) (timestamp b)).
  - eapply result_of_run. by apply get_velocity_zero_run.
  - eapply result_of_run. by apply get_velocity_run.
Qed.

Lemma get_velocity_by_timestamps_witness :
  result_of (get_velocity (event 3 (F64.of_Z 10)) (event 4 (F64.of_Z 13)))
    (heap2 (vec (F64.of_Z 1) (F64.of_Z 2)) (vec (F64.of_Z 4) (F64.of_Z 8)))
  = Returns
      (if F64.eqb (F64.of_Z 10) (F64.of_Z 13)
       then [PFloat F64.zero; PFloat F64.zero]
       else
         [PFloat (F64.div (F64.sub (F64.of_Z 4) (F64.of_Z 1))
                    (F64.sub (F64.of_Z 13) (F64.of_Z 10)));
          PFloat (F64.div (F64.sub (F64.of_Z 8) (F64.of_Z 2))
                    (F64.sub (F64.of_Z 13) (F64.of_Z 10)))]).
Proof.
  apply (get_velocity_by_timestamps
           (heap2 (vec (F64.of_Z 1) (F64.of_Z 2)) (vec (F64.of_Z 4) (F64.of_Z 8)))
           (event 3 (F64.of_Z 10)) (event 4 (F64.of_Z 13))
           (F64.of_Z 1) (F64.of_Z 2) (F64.of_Z 4) (F64.of_Z 8));
    reflexivity.
Defined.
